(** * MeSH2OBO: the MeSH-to-OBO converter of [MeSH2OBO.ipynb]

    A shallow embedding of the notebook's four code cells:
    the record parser [readMeSH], the tree-id map [parentList] with the
    parent lookup [getParent], and the loop that prints the OBO stanzas.

    Python values are modelled as follows.
    - [str]: the input is opened with [encoding='Latin-1'], so every
      character is a code point below 256; a [str] is a [string] of 8-bit
      [ascii] characters, [len] is [String.length].
    - [dict]/[defaultdict(list)]: [gmap string _]; a [defaultdict(list)]
      reads a missing key as the empty list.
    - exceptions: the type [exn]; a computation that may raise returns a
      [result].
    - a generator, and a loop that prints: a [trace], the list of values
      yielded (or lines printed) so far paired with how the computation
      ended. *)

From Stdlib Require Import Ascii.
From stdpp Require Import base option list strings gmap.

Local Open Scope list_scope.
Local Open Scope stdpp_scope.

(** ** Exceptions and results *)

Inductive exn : Type :=
  | KeyError (key : string)
  | IndexError
  | TypeError.

Inductive result (A : Type) : Type :=
  | Ok (a : A)
  | Raise (e : exn).
Arguments Ok {A} a.
Arguments Raise {A} e.

#[global] Instance result_ret : MRet result := fun _ a => Ok a.
#[global] Instance result_bind : MBind result := fun _ _ f r =>
  match r with
  | Ok a => f a
  | Raise e => Raise e
  end.

(** ** Traces: values produced one by one, then an outcome

    [fst t] is what was yielded or printed, in order; [snd t] is [Ok] when
    the computation ran to its end and [Raise e] when it stopped with the
    exception [e]. What was produced before an exception stays produced. *)

Definition trace (W A : Type) : Type := list W * result A.

#[global] Instance trace_ret {W} : MRet (trace W) := fun _ a => ([], Ok a).
#[global] Instance trace_bind {W} : MBind (trace W) := fun _ _ f t =>
  match snd t with
  | Ok a => (fst t ++ fst (f a), snd (f a))
  | Raise e => (fst t, Raise e)
  end.

Definition produce {W} (w : W) : trace W unit := ([w], Ok tt).
Definition lift {W A} (r : result A) : trace W A := ([], r).

(** ** Python string primitives *)

(** The double quote character, code point 34. *)
Definition dquote : ascii := "034"%char.

(** [c in s] for a one-character [c]. *)
Fixpoint contains (c : ascii) (s : string) : bool :=
  match s with
  | EmptyString => false
  | String a s' => if Ascii.eqb a c then true else contains c s'
  end.

(** [s[0]]: a one-character string, [IndexError] on the empty string. *)
Definition str_at0 (s : string) : result string :=
  match s with
  | EmptyString => Raise IndexError
  | String a _ => Ok (String a EmptyString)
  end.

(** [l[0]] on a list. *)
Definition list_at0 {A} (l : list A) : result A :=
  match l with
  | [] => Raise IndexError
  | x :: _ => Ok x
  end.

(** ["lit" + x]: [TypeError] when [x] is [None]. *)
Definition str_add (lit : string) (x : option string) : result string :=
  match x with
  | Some s => Ok (lit +:+ s)
  | None => Raise TypeError
  end.

(** [str.isspace] on the code points below 256: TAB, LF, VT, FF, CR,
    FS, GS, RS, US, space, NEL (0x85) and NBSP (0xA0). *)
Definition isspace (c : ascii) : bool :=
  match c with
  | "009" | "010" | "011" | "012" | "013"
  | "028" | "029" | "030" | "031" | " " | "133" | "160" => true
  | _ => false
  end%char.

Fixpoint lstrip (s : string) : string :=
  match s with
  | EmptyString => EmptyString
  | String a s' => if isspace a then lstrip s' else s
  end.

Fixpoint rstrip (s : string) : string :=
  match s with
  | EmptyString => EmptyString
  | String a s' =>
      match rstrip s' with
      | EmptyString => if isspace a then EmptyString else String a EmptyString
      | r => String a r
      end
  end.

(** [s.strip()] *)
Definition strip (s : string) : string := rstrip (lstrip s).

Fixpoint drop_chars (n : nat) (s : string) : string :=
  match n, s with
  | S n', String _ s' => drop_chars n' s'
  | _, _ => s
  end.

(** [find_sep sep s]: the text before and after the first occurrence of
    [sep] in [s], if there is one. *)
Fixpoint find_sep (sep s : string) : option (string * string) :=
  if String.prefix sep s then Some (EmptyString, drop_chars (String.length sep) s)
  else match s with
       | EmptyString => None
       | String a s' =>
           match find_sep sep s' with
           | Some (before, after) => Some (String a before, after)
           | None => None
           end
       end.

(** [key, _, value = s.partition(sep)] for a separator [sep] that is not
    empty, as the only call of the notebook has it: without [sep], the
    whole of [s] and the empty string. (On the empty separator
    [str.partition] raises [ValueError]; that case is not modelled.) *)
Definition partition (sep s : string) : string * string :=
  match find_sep sep s with
  | Some kv => kv
  | None => (s, EmptyString)
  end.

(** [re.sub('\.[^\.]+$', '', s)]. The pattern is a dot, then one or more
    characters other than a dot, then the end of the string. Scanning from
    the left, a match starts at a dot whose remainder is not empty and has
    no dot; it then takes the whole remainder, so nothing follows it. ([$]
    also matches before a final line feed, but [[^\.]] matches a line feed
    too and is greedy, so the match found is the same.) A string with no
    such dot is returned as it is. *)
Fixpoint sub_last_segment (s : string) : string :=
  match s with
  | EmptyString => EmptyString
  | String a s' =>
      if Ascii.eqb a "." && negb (String.eqb s' EmptyString) && negb (contains "." s')
      then EmptyString
      else String a (sub_last_segment s')
  end.

(** [re.sub('\|.*', '', s)]. The pattern is a bar, then every character
    up to the end of the line: [.] matches anything but a line feed. Every
    match is removed; [inside] says that the scan is within a match. *)
Fixpoint sub_bar_from (inside : bool) (s : string) : string :=
  match s with
  | EmptyString => EmptyString
  | String a s' =>
      if Ascii.eqb a "010" then String a (sub_bar_from false s')
      else if inside then sub_bar_from true s'
      else if Ascii.eqb a "|" then sub_bar_from true s'
      else String a (sub_bar_from false s')
  end.

Definition sub_bar (s : string) : string := sub_bar_from false s.

(** ** Records: [defaultdict(list)] *)

(** [entry[key]] read on a [defaultdict(list)]. (The read also stores the
    empty list under a missing key; no later code of the notebook can tell,
    since every later read goes through the same default.) *)
Definition dd_get (entry : gmap string (list string)) (key : string) : list string :=
  default [] (entry !! key).

(** [entry[key].append(value)] *)
Definition dd_append (key value : string) (entry : gmap string (list string))
  : gmap string (list string) :=
  <[key := dd_get entry key ++ [value]]> entry.

(** Truth value of [entry], which is [None] or a [defaultdict]: [None] and
    the dictionary with no key are false. *)
Definition truthy (entry : option (gmap string (list string))) : bool :=
  match entry with
  | None => false
  | Some e => negb (bool_decide (e = ∅))
  end.

(** ** Cell 1: the top-level terms *)

Definition topLevelTerms : list (string * string) :=
  [ ("A", "Anatomy");
    ("B", "Organisms");
    ("C", "Diseases");
    ("D", "Chemicals and Drugs");
    ("E", "Analytical, Diagnostic and Therapeutic Techniques, and Equipment");
    ("F", "Psychiatry and Psychology");
    ("G", "Phenomena and Processes");
    ("H", "Disciplines and Occupations");
    ("I", "Anthropology, Education, Sociology, and Social Phenomena");
    ("J", "Technology, Industry, and Agriculture");
    ("K", "Humanities");
    ("L", "Information Science");
    ("M", "Named Groups");
    ("N", "Health Care");
    ("V", "Publication Characteristics");
    ("Z", "Geographicals") ].

(** ** Cell 2: [provideEntry] and [readMeSH] *)

Definition provideEntry (id name : string) : gmap string (list string) :=
  dd_append "MH" name (dd_append "UI" id ∅).

Definition NEWRECORD : string := "*NEWRECORD".

(** [if entry: yield entry] *)
Definition yield_if (entry : option (gmap string (list string)))
  : list (gmap string (list string)) :=
  match entry with
  | Some e => if truthy entry then [e] else []
  | None => []
  end.

(** The [for line in fin] loop of [readMeSH] and the final [if entry], from
    the state [entry]. On a field line with [entry = None] the subscript
    [entry[key]] raises [TypeError]. *)
Fixpoint scan (entry : option (gmap string (list string))) (fin : list string)
  : trace (gmap string (list string)) unit :=
  match fin with
  | [] => (yield_if entry, Ok tt)
  | line :: fin' =>
      let line := strip line in
      if String.eqb line EmptyString then scan entry fin'
      else if String.eqb line NEWRECORD then
        (yield_if entry, Ok tt) ;; scan (Some ∅) fin'
      else
        let '(key, value) := partition " = " line in
        match entry with
        | None => lift (Raise TypeError)
        | Some e => scan (Some (dd_append key value e)) fin'
        end
  end.

Definition readMeSH (fin : list string) : trace (gmap string (list string)) unit :=
  (map (fun kv => provideEntry kv.1 kv.2) topLevelTerms, Ok tt) ;; scan None fin.

(** ** Cell 3: [parentList] and [getParent] *)

(** The body of [for entry in readMeSH(infile)]:
    [for tree in entry['MN']: parentList[tree] = entry['UI'][0]]. *)
Fixpoint add_trees (entry : gmap string (list string)) (trees : list string)
    (parentList : gmap string string) : result (gmap string string) :=
  match trees with
  | [] => Ok parentList
  | tree :: trees' =>
      ui ← list_at0 (dd_get entry "UI");
      add_trees entry trees' (<[tree := ui]> parentList)
  end.

(** The loop over the records the generator yields. *)
Fixpoint build_from (parentList : gmap string string)
    (entries : list (gmap string (list string))) : result (gmap string string) :=
  match entries with
  | [] => Ok parentList
  | entry :: entries' =>
      parentList' ← add_trees entry (dd_get entry "MN") parentList;
      build_from parentList' entries'
  end.

(** [parentList = {}] and the loop, over the lines of the input: the
    records yielded are consumed in order; an exception of the generator
    arrives after them. *)
Definition build_parentList (fin : list string) : result (gmap string string) :=
  parentList ← build_from ∅ (readMeSH fin).1;
  (readMeSH fin).2 ;; Ok parentList.

Definition getParent (parentList : gmap string string) (id : string)
  : result (option string) :=
  if contains "." id then
    let key := sub_last_segment id in
    match parentList !! key with
    | Some ui => Ok (Some ui)
    | None => Raise (KeyError key)
    end
  else if Nat.eqb (String.length id) 3 then
    c ← str_at0 id; Ok (Some c)
  else Ok None.

(** ** Cell 4: writing the stanzas *)

Section Emitter.
Variable parentList : gmap string string.

(** The body of [for syn in entry['ENTRY']]: the line printed. *)
Definition synonym_line (syn : string) : string :=
  "synonym: " +:+ String dquote (sub_bar syn +:+ String dquote " EXACT []").

(** [for tree in entry['MN']], from the list [done]. The test
    [parentId not in done] comes before the concatenation
    ["is_a: " + parentId]. *)
Fixpoint is_a_loop (done : list (option string)) (trees : list string)
  : trace string unit :=
  match trees with
  | [] => mret tt
  | tree :: trees' =>
      parentId ← lift (getParent parentList tree);
      if bool_decide (parentId ∈ done) then is_a_loop done trees'
      else
        line ← lift (str_add "is_a: " parentId);
        produce line ;;
        is_a_loop (done ++ [parentId]) trees'
  end.

(** The body of the loop over the records: one stanza. *)
Definition write_entry (entry : gmap string (list string)) : trace string unit :=
  produce "[Term]" ;;
  ui ← lift (list_at0 (dd_get entry "UI"));
  produce ("id: " +:+ ui) ;;
  mh ← lift (list_at0 (dd_get entry "MH"));
  produce ("name: " +:+ mh) ;;
  (map synonym_line (dd_get entry "ENTRY"), Ok tt) ;;
  is_a_loop [] (dd_get entry "MN") ;;
  produce EmptyString.

(** The loop over the records the generator yields. *)
Fixpoint write_entries (entries : list (gmap string (list string)))
  : trace string unit :=
  match entries with
  | [] => mret tt
  | entry :: entries' => write_entry entry ;; write_entries entries'
  end.

(** The whole cell over the lines of the input. *)
Definition write_obo (fin : list string) : trace string unit :=
  write_entries (readMeSH fin).1 ;; lift (readMeSH fin).2.
End Emitter.

(** ** Reference notions, in the words of the specification

    These are not taken from the code; the theorems below compare the
    code with them. *)

(** The dot-delimited segments of a string, as [str.split('.')] gives
    them: a string with n dots has n + 1 segments, some possibly empty. *)
Fixpoint segments (s : string) : list string :=
  match s with
  | EmptyString => [EmptyString]
  | String a s' =>
      if Ascii.eqb a "." then EmptyString :: segments s'
      else match segments s' with
           | seg :: segs => String a seg :: segs
           | [] => [String a EmptyString]
           end
  end.

(** Segments joined again with dots. *)
Fixpoint join_dots (segs : list string) : string :=
  match segs with
  | [] => EmptyString
  | [seg] => seg
  | seg :: segs' => seg +:+ String "." (join_dots segs')
  end.

Definition final_segment (s : string) : string :=
  List.last (segments s) EmptyString.

(** The parent prefix: the string with its final dot-delimited segment
    (and the dot before it) stripped. *)
Definition parent_prefix (s : string) : string :=
  join_dots (removelast (segments s)).

(** A value truncated at its first bar. *)
Fixpoint truncate_at_bar (s : string) : string :=
  match s with
  | EmptyString => EmptyString
  | String a s' => if Ascii.eqb a "|" then EmptyString else String a (truncate_at_bar s')
  end.

(** The distinct elements of a list in the order of their first
    occurrence: the head, then the rest without the head. *)
Fixpoint first_seen (l : list string) : list string :=
  match l with
  | [] => []
  | x :: l' => x :: filter (fun y => y ≠ x) (first_seen l')
  end.

(** The first line that is not blank, stripped. *)
Fixpoint first_nonblank (fin : list string) : option string :=
  match fin with
  | [] => None
  | line :: fin' =>
      if String.eqb (strip line) EmptyString then first_nonblank fin'
      else Some (strip line)
  end.

(** A line as a text file gives it: a line feed can only be its last
    character. *)
Fixpoint text_line (s : string) : bool :=
  match s with
  | EmptyString => true
  | String a s' => if Ascii.eqb a "010" then String.eqb s' EmptyString else text_line s'
  end.

(** No line feed in any value of a record. *)
Definition lf_free (entry : gmap string (list string)) : Prop :=
  ∀ key value, value ∈ dd_get entry key → contains "010" value = false.

(** The synthetic records of the top-level terms. *)
Definition top_level_entries : list (gmap string (list string)) :=
  map (fun kv => provideEntry kv.1 kv.2) topLevelTerms.

(** The three kinds of input line, told apart after [strip] as [readMeSH]
    does, and the key and value of a field line. *)
Definition is_blank (line : string) : bool := String.eqb (strip line) EmptyString.

Definition is_sentinel (line : string) : bool := String.eqb (strip line) NEWRECORD.

Definition is_field (line : string) : bool := negb (is_blank line) && negb (is_sentinel line).

Definition field_of (line : string) : string * string := partition " = " (strip line).

(** The stanza of a synthetic record: header, id, name, blank line. *)
Definition top_stanza (kv : string * string) : list string :=
  [ "[Term]"; "id: " +:+ kv.1; "name: " +:+ kv.2; EmptyString ].

(** The parent of a tree position when [getParent] returns one. *)
Definition resolved (parentList : gmap string string) (t : string) : option string :=
  match getParent parentList t with
  | Ok (Some parent) => Some parent
  | _ => None
  end.

(** A record that can be printed: it has an id and a name, and each of
    its tree positions has a parent. *)
Definition printable (parentList : gmap string string)
    (entry : gmap string (list string)) : Prop :=
  dd_get entry "UI" ≠ [] ∧ dd_get entry "MH" ≠ [] ∧
  Forall (fun t => is_Some (resolved parentList t)) (dd_get entry "MN").

(** The stanza of a record: header, first id, first name, one line per
    synonym, one line per distinct parent, blank line. *)
Definition stanza_of (parentList : gmap string string)
    (entry : gmap string (list string)) : list string :=
  [ "[Term]";
    "id: " +:+ default EmptyString (head (dd_get entry "UI"));
    "name: " +:+ default EmptyString (head (dd_get entry "MH")) ]
  ++ map (fun syn => "synonym: " +:+ String dquote (sub_bar syn +:+ String dquote " EXACT []"))
       (dd_get entry "ENTRY")
  ++ map (fun p => "is_a: " +:+ p)
       (first_seen (omap (resolved parentList) (dd_get entry "MN")))
  ++ [ EmptyString ].

(** ** Sample data *)

(** The line feed that ends a line of the input file. *)
Definition LF : string := String "010" EmptyString.

(** [record_D000001] has two tree positions; [record_D000002] has one of
    them again. *)

Definition record_D000001 : gmap string (list string) :=
  dd_append "MN" "C07" (dd_append "MN" "C06"
    (dd_append "MH" "First" (dd_append "UI" "D000001" ∅))).

Definition record_D000002 : gmap string (list string) :=
  dd_append "MN" "C06" (dd_append "MH" "Second" (dd_append "UI" "D000002" ∅)).

(** A record whose only tree position has no dot and two characters. *)
Definition lines_AB : list string :=
  [ "*NEWRECORD" +:+ LF; "UI = D000001" +:+ LF; "MH = Foo" +:+ LF; "MN = AB" +:+ LF ].

Definition record_AB : gmap string (list string) :=
  dd_append "MN" "AB" (dd_append "MH" "Foo" (dd_append "UI" "D000001" ∅)).

(** Two sentinel lines in a row, then a record. *)
Definition lines_two_sentinels : list string :=
  [ "*NEWRECORD" +:+ LF; "*NEWRECORD" +:+ LF; "UI = D000001" +:+ LF ].

(** A record whose second tree position has no parent in the empty map,
    between two positions that have one. *)
Definition record_mixed : gmap string (list string) :=
  dd_append "MN" "D01" (dd_append "MN" "X99.001" (dd_append "MN" "C06"
    (dd_append "MH" "Foo" (dd_append "UI" "D000001" ∅)))).

(** A record with a synonym that carries a qualifier after a bar. *)
Definition lines_example : list string :=
  [ "*NEWRECORD" +:+ LF; "UI = D000123" +:+ LF; "MH = Example Concept" +:+ LF;
    "ENTRY = Foo Bar|T123" +:+ LF; "MN = C06.198.100" +:+ LF ].

Definition record_example : gmap string (list string) :=
  dd_append "MN" "C06.198.100" (dd_append "ENTRY" "Foo Bar|T123"
    (dd_append "MH" "Example Concept" (dd_append "UI" "D000123" ∅))).

(** * Properties *)

(** ** The resolver: [getParent] *)

Lemma segments_nonempty s : segments s ≠ [].
Proof. destruct s as [|a s]; simpl; [done|]. by repeat case_match. Qed.

Lemma segments_no_dot s : contains "." s = false → segments s = [s].
Proof.
  induction s as [|a s IH]; simpl; [done|].
  destruct (Ascii.eqb a "."); [done|]. intros H. by rewrite IH.
Qed.

Lemma segments_dot s :
  contains "." s = true → ∃ seg seg' segs, segments s = seg :: seg' :: segs.
Proof.
  induction s as [|a s IH]; simpl; [done|].
  destruct (Ascii.eqb a ".") eqn:Ha.
  - intros _. destruct (segments s) as [|seg segs] eqn:Hs.
    + by destruct (segments_nonempty s).
    + eauto.
  - intros H. destruct (IH H) as (seg & seg' & segs & ->). eauto.
Qed.

(** The segments of a string, joined, are the string. *)
Lemma join_dots_segments s : join_dots (segments s) = s.
Proof.
  induction s as [|a s IH]; [done|]. cbn [segments].
  destruct (segments s) as [|seg segs] eqn:Hs; [by destruct (segments_nonempty s)|].
  destruct (Ascii.eqb a ".") eqn:Ha.
  - apply Ascii.eqb_eq in Ha as ->.
    change (join_dots (EmptyString :: seg :: segs))
      with (EmptyString +:+ String "." (join_dots (seg :: segs))).
    by rewrite IH.
  - rewrite <- IH. by destruct segs.
Qed.

Lemma final_segment_cons a s :
  contains "." s = true → final_segment (String a s) = final_segment s.
Proof.
  intros H. destruct (segments_dot s H) as (seg & seg' & segs & Hs).
  unfold final_segment. simpl. rewrite Hs. by destruct (Ascii.eqb a ".").
Qed.

(** The regular expression strips the final segment whenever that segment
    is not empty. *)
Lemma sub_last_segment_parent_prefix s :
  contains "." s = true → final_segment s ≠ EmptyString →
  sub_last_segment s = parent_prefix s.
Proof.
  induction s as [|a s IH]; [done|].
  intros Hdot Hfin. simpl in Hdot. unfold parent_prefix. simpl.
  destruct (contains "." s) eqn:Hs.
  - (* a later dot: the match is further right *)
    rewrite andb_false_r.
    rewrite final_segment_cons in Hfin by done.
    rewrite (IH eq_refl Hfin). unfold parent_prefix.
    destruct (segments_dot s Hs) as (seg & seg' & segs & ->).
    destruct (Ascii.eqb a ".") eqn:Ha.
    + apply Ascii.eqb_eq in Ha as ->. by destruct segs.
    + by destruct segs.
  - (* no later dot: [a] is the last dot *)
    destruct (Ascii.eqb a ".") eqn:Ha; [|done].
    apply Ascii.eqb_eq in Ha as ->.
    rewrite (segments_no_dot s Hs). simpl.
    destruct s as [|b s]; [|done].
    exfalso. by apply Hfin.
Qed.

(** A string that ends in a dot is left as it is. *)
Lemma sub_last_segment_trailing_dot s :
  final_segment s = EmptyString → sub_last_segment s = s.
Proof.
  induction s as [|a s IH]; [done|]. simpl.
  destruct (contains "." s) eqn:Hs.
  - rewrite final_segment_cons by done. intros H.
    by rewrite andb_false_r, (IH H).
  - unfold final_segment. simpl. rewrite (segments_no_dot s Hs).
    destruct (Ascii.eqb a "."); simpl.
    + by intros ->.
    + done.
Qed.

(** C1, as amended. For every tree-position string that contains a dot
    and does not end in one (its final dot-delimited segment is not
    empty), and whose parent prefix is a key of [parentList], [getParent]
    returns the concept id stored under that parent prefix. *)
Theorem getParent_parent_prefix (parentList : gmap string string) id ui :
  contains "." id = true →
  final_segment id ≠ EmptyString →
  parentList !! parent_prefix id = Some ui →
  getParent parentList id = Ok (Some ui).
Proof.
  intros Hdot Hfin Hkey. unfold getParent. rewrite Hdot.
  rewrite (sub_last_segment_parent_prefix id Hdot Hfin).
  by rewrite Hkey.
Qed.

Lemma getParent_parent_prefix_witness :
  contains "." "C06.198" = true ∧
  final_segment "C06.198" ≠ EmptyString ∧
  ({["C06" := "D000001"]} : gmap string string) !! parent_prefix "C06.198"
    = Some "D000001" ∧
  getParent {["C06" := "D000001"]} "C06.198" = Ok (Some "D000001").
Proof.
  assert (Hfin : final_segment "C06.198" ≠ EmptyString) by (by vm_compute).
  split; [reflexivity|]. split; [exact Hfin|]. split; [reflexivity|].
  apply (getParent_parent_prefix _ "C06.198" "D000001");
    [reflexivity | exact Hfin | reflexivity].
Defined.

(** C1 as stated fails on a position that ends in a dot: the parent
    prefix of [C06.] is [C06], a key of the map, but the regular expression
    leaves [C06.] unchanged and the lookup of that string raises. *)
Lemma getParent_trailing_dot :
  contains "." "C06." = true ∧
  ({["C06" := "D000001"]} : gmap string string) !! parent_prefix "C06."
    = Some "D000001" ∧
  getParent {["C06" := "D000001"]} "C06." = Raise (KeyError "C06.").
Proof. by vm_compute. Qed.

(** C2, as amended. [getParent] returns an optional concept id exactly
    when the position has no dot or the key it looks up is in
    [parentList]; in the dangling case, a dot and a key that is absent, it
    does not return: the subscript raises [KeyError] on that key. *)
Theorem getParent_returns_or_raises (parentList : gmap string string) id :
  ((∃ r, getParent parentList id = Ok r) ↔
     contains "." id = false ∨ is_Some (parentList !! sub_last_segment id)) ∧
  (contains "." id = true ∧ parentList !! sub_last_segment id = None ↔
     getParent parentList id = Raise (KeyError (sub_last_segment id))) ∧
  (∀ e, getParent parentList id = Raise e → e = KeyError (sub_last_segment id)).
Proof.
  unfold getParent.
  destruct (contains "." id) eqn:Hdot.
  - destruct (parentList !! sub_last_segment id) as [ui|] eqn:Hkey.
    + split_and!; [split; eauto| |done]. split; [by intros [_ ?]|done].
    + split_and!.
      * split; [by intros [r ?]|]. intros [?|[? ?]]; done.
      * done.
      * by intros e [= <-].
  - assert (∃ r, (if Nat.eqb (String.length id) 3 then c ← str_at0 id; Ok (Some c)
                  else Ok None) = Ok r) as [r ->].
    { destruct id as [|a [|b [|c [|d id]]]]; simpl; eauto. }
    split_and!; [split; eauto| |done]. split; [by intros [? _]|done].
Qed.

(** C2 as stated fails in the dangling case: [X99] is not a key of the
    empty map and [getParent] raises instead of returning. *)
Lemma getParent_dangling :
  contains "." "X99.001" = true ∧
  (∅ : gmap string string) !! parent_prefix "X99.001" = None ∧
  getParent ∅ "X99.001" = Raise (KeyError "X99").
Proof. by vm_compute. Qed.

(** C3. For every tree-position string with no dot, whatever
    [parentList] holds: [getParent] returns the first character of the
    position when its length is 3, and none otherwise. *)
Theorem getParent_top_level (parentList : gmap string string) id :
  contains "." id = false →
  getParent parentList id =
    Ok (if decide (String.length id = 3) then Some (String.substring 0 1 id) else None).
Proof.
  intros Hdot. unfold getParent. rewrite Hdot.
  destruct id as [|a [|b [|c [|d id]]]]; done.
Qed.

Lemma getParent_top_level_witness :
  contains "." "C06" = false ∧
  getParent {["C06" := "D000001"]} "C06" = Ok (Some "C") ∧
  getParent ∅ "C0" = Ok None.
Proof.
  split; [reflexivity|]. split.
  - exact (getParent_top_level {["C06" := "D000001"]} "C06" eq_refl).
  - exact (getParent_top_level ∅ "C0" eq_refl).
Defined.

(** ** The build step: [parentList] *)

Lemma result_bind_Ok {A B} (f : A → result B) (r : result A) b :
  r ≫= f = Ok b → ∃ a, r = Ok a ∧ f a = Ok b.
Proof. destruct r as [a|e]; [eauto|done]. Qed.

(** One record: every tree position of the record is set to the record's
    id, the other keys are kept. *)
Lemma add_trees_lookup entry ui trees (parentList : gmap string string) :
  list_at0 (dd_get entry "UI") = Ok ui →
  ∃ parentList', add_trees entry trees parentList = Ok parentList' ∧
    ∀ t, parentList' !! t = if decide (t ∈ trees) then Some ui else parentList !! t.
Proof.
  intros Hui. revert parentList.
  induction trees as [|tree trees IH]; intros parentList.
  - exists parentList. split; [done|]. intros t. case_decide; [set_solver|done].
  - cbn [add_trees]. rewrite Hui. cbn [mbind result_bind].
    destruct (IH (<[tree := ui]> parentList)) as (m & -> & Hm).
    exists m. split; [done|]. intros t. rewrite Hm.
    destruct (decide (t = tree)) as [->|Hne].
    + rewrite lookup_insert_eq, (decide_True (P := tree ∈ tree :: trees)) by by left.
      by destruct (decide (tree ∈ trees)).
    + rewrite lookup_insert_ne by done.
      destruct (decide (t ∈ trees)) as [Hin|Hnotin].
      * by rewrite decide_True by by right.
      * rewrite decide_False; [done|]. by intros [?|?]%elem_of_cons.
Qed.

Lemma add_trees_entry entry (parentList : gmap string string) :
  (dd_get entry "MN" ≠ [] → dd_get entry "UI" ≠ []) →
  ∃ parentList', add_trees entry (dd_get entry "MN") parentList = Ok parentList' ∧
    ∀ t, parentList' !! t =
         if decide (t ∈ dd_get entry "MN") then head (dd_get entry "UI")
         else parentList !! t.
Proof.
  intros Hid. destruct (dd_get entry "MN") as [|tree trees] eqn:Hmn.
  - exists parentList. split; [done|]. intros t. case_decide; [set_solver|done].
  - destruct (dd_get entry "UI") as [|ui uis] eqn:Hui; [by destruct Hid|].
    rewrite <- Hui.
    destruct (add_trees_lookup entry ui (tree :: trees) parentList) as (m & Hm & Hl).
    { by rewrite Hui. }
    exists m. split; [done|]. intros t. by rewrite Hl, Hui.
Qed.

Lemma build_from_app parentList entries1 entries2 :
  build_from parentList (entries1 ++ entries2) =
  parentList' ← build_from parentList entries1; build_from parentList' entries2.
Proof.
  revert parentList. induction entries1 as [|e entries1 IH]; intros parentList; simpl.
  - done.
  - destruct (add_trees e (dd_get e "MN") parentList) as [m|x]; simpl; [apply IH|done].
Qed.

Lemma build_from_total parentList entries :
  Forall (fun e => dd_get e "MN" ≠ [] → dd_get e "UI" ≠ []) entries →
  ∃ parentList', build_from parentList entries = Ok parentList'.
Proof.
  intros Hwf. revert parentList.
  induction Hwf as [|e entries He _ IH]; intros parentList; simpl.
  - eauto.
  - destruct (add_trees_entry e parentList He) as (m & -> & _). apply IH.
Qed.

(** A tree position that no record has keeps what it had. *)
Lemma build_from_untouched t entries : ∀ parentList parentList',
  Forall (fun e => t ∉ dd_get e "MN") entries →
  build_from parentList entries = Ok parentList' →
  parentList' !! t = parentList !! t.
Proof.
  induction entries as [|e entries IH]; intros parentList parentList' Hnot; simpl.
  - by intros [= ->].
  - inversion_clear Hnot as [|? ? Ht Hrest].
    intros (m & Hadd & Hbuild)%result_bind_Ok.
    rewrite (IH m parentList' Hrest Hbuild).
    clear Hbuild IH Hrest. revert parentList Hadd.
    induction (dd_get e "MN") as [|tree trees IHt]; intros parentList; simpl.
    + by intros [= ->].
    + intros (ui & _ & Hadd)%result_bind_Ok.
      rewrite (IHt ltac:(set_solver) _ Hadd).
      apply lookup_insert_ne. set_solver.
Qed.

(** Every key comes from a record or was there before. *)
Lemma build_from_keys t entries : ∀ parentList parentList',
  build_from parentList entries = Ok parentList' →
  is_Some (parentList' !! t) →
  is_Some (parentList !! t) ∨ ∃ e, e ∈ entries ∧ t ∈ dd_get e "MN".
Proof.
  induction entries as [|e entries IH]; intros parentList parentList'; simpl.
  - intros [= ->]. by left.
  - intros (m & Hadd & Hbuild)%result_bind_Ok Hsome.
    destruct (IH m parentList' Hbuild Hsome) as [Hm|(e' & He' & Ht)].
    + destruct (decide (t ∈ dd_get e "MN")) as [Hin|Hnotin].
      * right. exists e. split; [set_solver|done].
      * left. rewrite <- (build_from_untouched t [e] parentList m); [done| |].
        -- by repeat constructor.
        -- simpl. by rewrite Hadd.
    + right. exists e'. split; [set_solver|done].
Qed.

(** C4. Over a sequence of records in which every record with a tree
    position has an id, the build step ends with a map that holds, for a
    tree position of a record that no later record has, that record's id:
    whatever earlier records had the same position, the last one wins. The
    keys of the map are tree positions of the records. *)
Theorem build_last_write_wins entries :
  Forall (fun e => dd_get e "MN" ≠ [] → dd_get e "UI" ≠ []) entries →
  ∃ parentList, build_from ∅ entries = Ok parentList ∧
    (∀ earlier e later t,
       entries = earlier ++ e :: later →
       t ∈ dd_get e "MN" →
       Forall (fun e' => t ∉ dd_get e' "MN") later →
       ∃ ui, list_at0 (dd_get e "UI") = Ok ui ∧ parentList !! t = Some ui) ∧
    (∀ t, is_Some (parentList !! t) → ∃ e, e ∈ entries ∧ t ∈ dd_get e "MN").
Proof.
  intros Hwf.
  destruct (build_from_total ∅ entries Hwf) as (parentList & Hbuild).
  exists parentList. split_and!; [done| |].
  - intros earlier e later t -> Ht Hlater.
    rewrite build_from_app in Hbuild.
    apply result_bind_Ok in Hbuild as (m1 & _ & Hbuild). simpl in Hbuild.
    apply result_bind_Ok in Hbuild as (m2 & Hadd & Hbuild).
    apply Forall_app in Hwf as [_ [He _]%Forall_cons].
    destruct (add_trees_entry e m1 He) as (m2' & Hadd' & Hl).
    rewrite Hadd in Hadd'. injection Hadd' as <-.
    rewrite (build_from_untouched t later m2 parentList Hlater Hbuild), Hl.
    rewrite decide_True by done.
    destruct (dd_get e "UI") as [|ui uis] eqn:Hui.
    + destruct He; [|done]. intros Hmn. rewrite Hmn in Ht. set_solver.
    + by exists ui.
  - intros t Hsome.
    destruct (build_from_keys t entries ∅ parentList Hbuild Hsome) as [Hempty|?]; [|done].
    rewrite lookup_empty in Hempty. by destruct Hempty.
Qed.

Lemma build_last_write_wins_witness :
  Forall (fun e => dd_get e "MN" ≠ [] → dd_get e "UI" ≠ [])
    [record_D000001; record_D000002] ∧
  ∃ parentList, build_from ∅ [record_D000001; record_D000002] = Ok parentList ∧
    parentList !! "C06" = Some "D000002" ∧ parentList !! "C07" = Some "D000001".
Proof.
  assert (Hwf : Forall (fun e => dd_get e "MN" ≠ [] → dd_get e "UI" ≠ [])
                  [record_D000001; record_D000002]).
  { repeat constructor; intros _; by vm_compute. }
  split; [exact Hwf|].
  destruct (build_last_write_wins _ Hwf) as (parentList & Hbuild & Hlast & _).
  exists parentList. split; [exact Hbuild|]. split.
  - destruct (Hlast [record_D000001] record_D000002 [] "C06") as (ui & Hui & ->);
      [reflexivity | by vm_compute; left | constructor |].
    vm_compute in Hui. by injection Hui as <-.
  - destruct (Hlast [] record_D000001 [record_D000002] "C07") as (ui & Hui & ->);
      [reflexivity | by vm_compute; right; left | |].
    + repeat constructor. vm_compute. by intros [?|?]%elem_of_cons; [|set_solver].
    + vm_compute in Hui. by injection Hui as <-.
Defined.

(** ** The emitter: the [is_a] lines *)

Lemma trace_bind_lift_Ok {W A B} (a : A) (f : A → trace W B) :
  lift (Ok a) ≫= f = f a.
Proof. unfold mbind, trace_bind, lift. simpl. by destruct (f a). Qed.

Lemma trace_bind_produce {W B} (w : W) (k : trace W B) :
  (produce w ;; k) = (w :: k.1, k.2).
Proof. done. Qed.

Lemma trace_bind_yielded {W B} (ws : list W) (k : trace W B) :
  ((ws, Ok tt) ;; k) = (ws ++ k.1, k.2).
Proof. done. Qed.

(** [first_seen] keeps every element once. *)
Lemma elem_of_first_seen x l : x ∈ first_seen l ↔ x ∈ l.
Proof.
  induction l as [|y l IH]; simpl; [done|].
  rewrite !elem_of_cons, list_elem_of_filter, IH.
  destruct (decide (x = y)); tauto.
Qed.

Lemma NoDup_first_seen l : NoDup (first_seen l).
Proof.
  induction l as [|y l IH]; simpl; constructor.
  - rewrite list_elem_of_filter. by intros [Hne _].
  - by apply NoDup_filter.
Qed.

(** Read from the left, an element is added when it was not seen. *)
Lemma first_seen_snoc l x :
  first_seen (l ++ [x]) = if decide (x ∈ l) then first_seen l else first_seen l ++ [x].
Proof.
  induction l as [|y l IH]; cbn [first_seen app].
  - by rewrite decide_False by apply not_elem_of_nil.
  - rewrite IH. destruct (decide (x ∈ l)) as [Hin|Hnotin].
    + by rewrite decide_True by by right.
    + destruct (decide (x = y)) as [->|Hne].
      * rewrite decide_True by by left.
        rewrite filter_app, filter_cons_False, filter_nil, app_nil_r; [done|].
        by intros ?.
      * rewrite decide_False by (by intros [?|?]%elem_of_cons).
        by rewrite filter_app, filter_cons_True.
Qed.

Lemma filter_none_done (l : list string) :
  filter (fun p => Some p ∉ ([] : list (option string))) l = l.
Proof.
  induction l as [|p l IH]; [done|].
  rewrite filter_cons_True by apply not_elem_of_nil. by rewrite IH.
Qed.

(** The loop from any [done]: the parents not yet in [done], each at its
    first occurrence. *)
Lemma is_a_loop_from parentList trees parents : ∀ done0,
  Forall2 (fun t p => getParent parentList t = Ok (Some p)) trees parents →
  is_a_loop parentList done0 trees =
    (map (fun p => "is_a: " +:+ p)
       (filter (fun p => Some p ∉ done0) (first_seen parents)), Ok tt).
Proof.
  intros done0 Hres. revert done0.
  induction Hres as [|t p trees parents Hp _ IH]; intros done0; [done|].
  cbn [is_a_loop first_seen]. rewrite Hp, trace_bind_lift_Ok.
  destruct (decide (Some p ∈ done0)) as [Hin|Hnotin].
  - rewrite bool_decide_true, IH by done.
    rewrite filter_cons_False by (by intros ?).
    rewrite list_filter_filter. do 2 f_equal.
    apply list_filter_iff. intros q. split; [|tauto].
    intros Hq. split; [done|]. by intros ->.
  - rewrite bool_decide_false by done. cbn [str_add].
    rewrite trace_bind_lift_Ok, trace_bind_produce, IH.
    rewrite filter_cons_True by done. cbn [map fst snd]. do 3 f_equal.
    rewrite list_filter_filter. apply list_filter_iff. intros q.
    rewrite not_elem_of_app, list_elem_of_singleton.
    split; [intros [? ?]|intros [? ?]]; (split; [done|congruence]).
Qed.

(** The whole stanza of a record that has an id and a name and whose tree
    positions each resolve to a parent. *)
Lemma write_entry_stanza parentList entry ui uis mh mhs parents :
  dd_get entry "UI" = ui :: uis →
  dd_get entry "MH" = mh :: mhs →
  Forall2 (fun t p => getParent parentList t = Ok (Some p)) (dd_get entry "MN") parents →
  write_entry parentList entry =
    ([ "[Term]"; "id: " +:+ ui; "name: " +:+ mh ]
       ++ map synonym_line (dd_get entry "ENTRY")
       ++ map (fun p => "is_a: " +:+ p) (first_seen parents)
       ++ [ EmptyString ], Ok tt).
Proof.
  intros Hui Hmh Hres. unfold write_entry.
  rewrite Hui, Hmh, (is_a_loop_from _ _ _ [] Hres), filter_none_done.
  cbn [list_at0]. rewrite trace_bind_produce, trace_bind_lift_Ok.
  rewrite trace_bind_produce, trace_bind_lift_Ok, trace_bind_produce.
  by rewrite !trace_bind_yielded.
Qed.

(** C5, as amended. For a record whose tree positions each resolve to a
    parent, the loop over the tree positions runs to its end and prints one
    [is_a] line per distinct parent, in the order in which the parents are
    first seen; when the record has an id and a name these are the [is_a]
    lines of its stanza, after the synonym lines and before the blank
    line. *)
Theorem is_a_lines_first_seen parentList trees parents :
  Forall2 (fun t p => getParent parentList t = Ok (Some p)) trees parents →
  is_a_loop parentList [] trees =
    (map (fun p => "is_a: " +:+ p) (first_seen parents), Ok tt) ∧
  ∀ entry ui uis mh mhs,
    dd_get entry "MN" = trees →
    dd_get entry "UI" = ui :: uis →
    dd_get entry "MH" = mh :: mhs →
    write_entry parentList entry =
      ([ "[Term]"; "id: " +:+ ui; "name: " +:+ mh ]
         ++ map synonym_line (dd_get entry "ENTRY")
         ++ map (fun p => "is_a: " +:+ p) (first_seen parents)
         ++ [ EmptyString ], Ok tt).
Proof.
  intros Hres. split.
  - rewrite (is_a_loop_from parentList trees parents [] Hres).
    by rewrite filter_none_done.
  - intros entry ui uis mh mhs Hmn Hui Hmh. rewrite <- Hmn in Hres.
    by apply (write_entry_stanza parentList entry ui uis mh mhs parents).
Qed.

Lemma is_a_lines_first_seen_witness :
  Forall2 (fun t p => getParent {["C06.198" := "D000099"]} t = Ok (Some p))
    ["C06.198.100"; "C06.198.200"] ["D000099"; "D000099"] ∧
  is_a_loop {["C06.198" := "D000099"]} [] ["C06.198.100"; "C06.198.200"] =
    (["is_a: D000099"], Ok tt) ∧
  write_entry {["C06.198" := "D000099"]}
    (dd_append "MN" "C06.198.200" record_example) =
    ([ "[Term]"; "id: D000123"; "name: Example Concept";
       "synonym: " +:+ String dquote ("Foo Bar" +:+ String dquote " EXACT []");
       "is_a: D000099"; EmptyString ], Ok tt).
Proof.
  assert (Hres : Forall2 (fun t p => getParent {["C06.198" := "D000099"]} t = Ok (Some p))
                   ["C06.198.100"; "C06.198.200"] ["D000099"; "D000099"]).
  { by repeat constructor. }
  split; [exact Hres|].
  destruct (is_a_lines_first_seen _ _ _ Hres) as [Hloop Hstanza].
  split; [exact Hloop|].
  exact (Hstanza (dd_append "MN" "C06.198.200" record_example)
           "D000123" [] "Example Concept" [] eq_refl eq_refl eq_refl).
Defined.

(** C5 as stated fails for a record of which a tree position does not
    resolve. In [record_mixed] the positions [C06] and [D01] have the
    parents [C] and [D], and [X99.001] between them has none in the empty
    map: the line of [C] is printed, then [getParent] raises and the line
    of [D] is never printed. The same happens with [TypeError] when the
    position in the middle is [AB], for which [getParent] returns none. *)
Lemma is_a_lines_stop_at_unresolved :
  getParent ∅ "C06" = Ok (Some "C") ∧
  getParent ∅ "D01" = Ok (Some "D") ∧
  getParent ∅ "X99.001" = Raise (KeyError "X99") ∧
  is_a_loop ∅ [] ["C06"; "X99.001"; "D01"] = (["is_a: C"], Raise (KeyError "X99")) ∧
  dd_get record_mixed "MN" = ["C06"; "X99.001"; "D01"] ∧
  write_entry ∅ record_mixed =
    (["[Term]"; "id: D000001"; "name: Foo"; "is_a: C"], Raise (KeyError "X99")) ∧
  getParent ∅ "AB" = Ok None ∧
  is_a_loop ∅ [] ["C06"; "AB"; "D01"] = (["is_a: C"], Raise TypeError).
Proof. by vm_compute. Qed.

Lemma is_a_loop_no_parent parentList tree trees :
  getParent parentList tree = Ok None →
  is_a_loop parentList [] (tree :: trees) = ([], Raise TypeError).
Proof.
  intros Hnone. cbn [is_a_loop]. rewrite Hnone, trace_bind_lift_Ok.
  by rewrite bool_decide_false by apply not_elem_of_nil.
Qed.

(** C6, on the code. The input [lines_AB] is parsed into one record,
    [record_AB], whose only tree position [AB] resolves to none; the
    stanza of that record stops after the name line with [TypeError], from
    the concatenation of the [is_a] prefix and [None], and so does the
    whole output. *)
Theorem write_entry_no_parent_raises :
  scan None lines_AB = ([record_AB], Ok tt) ∧
  build_parentList lines_AB = Ok {["AB" := "D000001"]} ∧
  getParent {["AB" := "D000001"]} "AB" = Ok None ∧
  write_entry {["AB" := "D000001"]} record_AB =
    (["[Term]"; "id: D000001"; "name: Foo"], Raise TypeError) ∧
  (write_obo {["AB" := "D000001"]} lines_AB).2 = Raise TypeError.
Proof. by vm_compute. Qed.

(** ** The parser: [readMeSH] *)

(** C7, as amended. Every sentinel line closes the current record; the
    record is yielded when one is open and it has at least one field, and
    not otherwise; then a fresh empty record is opened with which the scan
    goes on. *)
Theorem scan_sentinel entry line fin :
  strip line = NEWRECORD →
  scan entry (line :: fin) =
    (match entry with
     | Some e => if decide (e = ∅) then [] else [e]
     | None => []
     end ++ (scan (Some ∅) fin).1,
     (scan (Some ∅) fin).2).
Proof.
  intros Hs. cbn [scan]. rewrite Hs.
  change (String.eqb NEWRECORD EmptyString) with false.
  change (String.eqb NEWRECORD NEWRECORD) with true. cbv iota.
  rewrite trace_bind_yielded. f_equal. f_equal.
  destruct entry as [e|]; [|done]. unfold yield_if, truthy.
  destruct (decide (e = ∅)) as [->|Hne].
  - by rewrite bool_decide_true.
  - by rewrite bool_decide_false.
Qed.

Lemma scan_sentinel_witness :
  strip ("*NEWRECORD" +:+ LF) = NEWRECORD ∧
  scan (Some record_AB) ["*NEWRECORD" +:+ LF] = ([record_AB], Ok tt).
Proof.
  split; [reflexivity|].
  rewrite (scan_sentinel (Some record_AB) ("*NEWRECORD" +:+ LF) []) by reflexivity.
  reflexivity.
Defined.

(** C7 as stated fails for an open record with no field. At the second
    of two sentinel lines the record opened by the first is open; nothing is
    yielded for it, and the input [lines_two_sentinels] gives one record
    only. *)
Lemma scan_sentinel_empty_record :
  strip ("*NEWRECORD" +:+ LF) = NEWRECORD ∧
  scan (Some ∅) ["*NEWRECORD" +:+ LF] = ([], Ok tt) ∧
  scan None lines_two_sentinels = ([dd_append "UI" "D000001" ∅], Ok tt).
Proof. by vm_compute. Qed.

Lemma provideEntry_fields id name :
  dd_get (provideEntry id name) "UI" = [id] ∧
  dd_get (provideEntry id name) "MH" = [name] ∧
  dd_get (provideEntry id name) "ENTRY" = [] ∧
  dd_get (provideEntry id name) "MN" = [].
Proof.
  unfold provideEntry, dd_append, dd_get.
  rewrite !lookup_insert, !lookup_empty. by split_and!.
Qed.

Lemma readMeSH_yields fin :
  (readMeSH fin).1 = top_level_entries ++ (scan None fin).1.
Proof. done. Qed.

(** C9. Whatever the input, the records of [readMeSH] begin with the
    synthetic records, one per entry of [topLevelTerms] and in its order,
    and the records read from the input lines follow. Each synthetic
    record has the one-letter key as its only id, the display name as its
    only name, no synonym and no tree position. *)
Theorem readMeSH_top_level_first fin :
  (readMeSH fin).1 = top_level_entries ++ (scan None fin).1 ∧
  Forall2 (fun kv e =>
             String.length kv.1 = 1 ∧
             dd_get e "UI" = [kv.1] ∧ dd_get e "MH" = [kv.2] ∧
             dd_get e "ENTRY" = [] ∧ dd_get e "MN" = [])
    topLevelTerms top_level_entries.
Proof.
  split; [apply readMeSH_yields|]. unfold top_level_entries.
  apply Forall2_fmap_r, Forall_Forall2_diag.
  repeat (apply Forall_cons; split;
          [split; [reflexivity | apply provideEntry_fields]|]).
  apply Forall_nil_2.
Qed.

(** Once a record is open the scan runs to its end. *)
Lemma scan_open_total fin : ∀ e, (scan (Some e) fin).2 = Ok tt.
Proof.
  induction fin as [|line fin IH]; intros e; cbn [scan]; [done|].
  destruct (String.eqb (strip line) EmptyString); [apply IH|].
  destruct (String.eqb (strip line) NEWRECORD).
  - rewrite trace_bind_yielded. apply IH.
  - destruct (partition " = " (strip line)) as [key value]. apply IH.
Qed.

(** With no record open, the first line that is not blank decides. *)
Lemma scan_None_first_nonblank fin :
  match first_nonblank fin with
  | None => scan None fin = ([], Ok tt)
  | Some l =>
      if String.eqb l NEWRECORD then (scan None fin).2 = Ok tt
      else scan None fin = ([], Raise TypeError)
  end.
Proof.
  induction fin as [|line fin IH]; cbn [scan first_nonblank]; [done|].
  destruct (String.eqb (strip line) EmptyString); [apply IH|].
  destruct (String.eqb (strip line) NEWRECORD).
  - rewrite trace_bind_yielded. apply scan_open_total.
  - by destruct (partition " = " (strip line)).
Qed.

(** C10. When the first line that is not blank is not the sentinel,
    [readMeSH] yields the synthetic records and then raises [TypeError] at
    that line, as no record is open. This is the only way in which it
    fails: when the first line that is not blank is the sentinel, or every
    line is blank, it runs to its end. *)
Theorem readMeSH_field_before_sentinel fin :
  (∀ l, first_nonblank fin = Some l → l ≠ NEWRECORD →
        readMeSH fin = (top_level_entries, Raise TypeError)) ∧
  (first_nonblank fin = None ∨ first_nonblank fin = Some NEWRECORD →
   (readMeSH fin).2 = Ok tt).
Proof.
  pose proof (scan_None_first_nonblank fin) as Hscan.
  unfold readMeSH. fold top_level_entries. rewrite trace_bind_yielded. split.
  - intros l Hl Hne. rewrite Hl in Hscan.
    apply String.eqb_neq in Hne. rewrite Hne in Hscan. rewrite Hscan.
    cbn [fst snd]. by rewrite app_nil_r.
  - intros [Hnone|Hsent]; cbn [snd].
    + rewrite Hnone in Hscan. by rewrite Hscan.
    + by rewrite Hsent in Hscan.
Qed.

Lemma readMeSH_field_before_sentinel_witness :
  first_nonblank [LF; "UI = D000001" +:+ LF; "*NEWRECORD" +:+ LF] = Some "UI = D000001" ∧
  readMeSH [LF; "UI = D000001" +:+ LF; "*NEWRECORD" +:+ LF] =
    (top_level_entries, Raise TypeError) ∧
  first_nonblank [LF; "*NEWRECORD" +:+ LF; "UI = D000001" +:+ LF] = Some NEWRECORD ∧
  (readMeSH [LF; "*NEWRECORD" +:+ LF; "UI = D000001" +:+ LF]).2 = Ok tt.
Proof.
  split; [reflexivity|]. split.
  - apply (proj1 (readMeSH_field_before_sentinel
                    [LF; "UI = D000001" +:+ LF; "*NEWRECORD" +:+ LF]) "UI = D000001");
      [reflexivity | discriminate].
  - split; [reflexivity|].
    apply (proj2 (readMeSH_field_before_sentinel
                    [LF; "*NEWRECORD" +:+ LF; "UI = D000001" +:+ LF])).
    right. reflexivity.
Defined.

(** What the [is_a] loop prints, also when it stops with an exception:
    one line per parent, for parents that are not in [done], without
    repetition, each the parent of a tree position of the list. *)
Lemma is_a_loop_lines parentList trees : ∀ done0,
  ∃ parents,
    (is_a_loop parentList done0 trees).1 = (fun p => "is_a: " +:+ p) <$> parents ∧
    NoDup parents ∧
    Forall (fun p => (Some p ∉ done0) ∧
                     ∃ t, t ∈ trees ∧ getParent parentList t = Ok (Some p)) parents.
Proof.
  induction trees as [|tree trees IH]; intros done0.
  - exists []. split; [done|]. split; constructor.
  - cbn [is_a_loop].
    assert (Hweaken : ∀ (dn : list (option string)) (ps : list string),
      Forall (fun p => (Some p ∉ dn) ∧
                ∃ t, t ∈ trees ∧ getParent parentList t = Ok (Some p)) ps →
      Forall (fun p => (Some p ∉ dn) ∧
                ∃ t, t ∈ tree :: trees ∧ getParent parentList t = Ok (Some p)) ps).
    { intros dn ps Hps. eapply Forall_impl; [exact Hps|].
      intros p [Hp (t & Ht & Hres)].
      split; [done|]. exists t. split; [by right|done]. }
    destruct (getParent parentList tree) as [[p|]|x] eqn:Hres.
    + rewrite trace_bind_lift_Ok.
      destruct (decide (Some p ∈ done0)) as [Hin|Hnotin].
      * rewrite bool_decide_true by done.
        destruct (IH done0) as (ps & Hout & Hnd & Hall).
        exists ps. split; [done|]. split; [done|]. by apply Hweaken.
      * rewrite bool_decide_false by done. cbn [str_add].
        rewrite trace_bind_lift_Ok, trace_bind_produce.
        destruct (IH (done0 ++ [Some p])) as (ps & Hout & Hnd & Hall).
        exists (p :: ps). cbn [fst]. rewrite Hout. split; [done|]. split.
        -- constructor; [|done]. intros Hp. rewrite Forall_forall in Hall.
           destruct (Hall p Hp) as [Hno _]. apply Hno, elem_of_app. right. by left.
        -- constructor.
           ++ split; [done|]. exists tree. split; [by left|done].
           ++ apply Hweaken. eapply Forall_impl; [exact Hall|].
              intros q [Hq Ht]. split; [|done]. intros Hin. apply Hq, elem_of_app. by left.
    + rewrite trace_bind_lift_Ok.
      destruct (decide (None ∈ done0)) as [Hin|Hnotin].
      * rewrite bool_decide_true by done.
        destruct (IH done0) as (ps & Hout & Hnd & Hall).
        exists ps. split; [done|]. split; [done|]. by apply Hweaken.
      * rewrite bool_decide_false by done. exists []. split; [done|]. split; constructor.
    + exists []. split; [done|]. split; constructor.
Qed.

(** ** The emitter: the synonym lines *)

Lemma sub_bar_from_inside s :
  contains "010" s = false → sub_bar_from true s = EmptyString.
Proof.
  induction s as [|a s IH]; cbn [contains sub_bar_from]; [done|].
  destruct (Ascii.eqb a "010"); [done|apply IH].
Qed.

(** On a value with no line feed the regular expression cuts at the first
    bar. *)
Lemma sub_bar_truncate s :
  contains "010" s = false → sub_bar s = truncate_at_bar s.
Proof.
  unfold sub_bar.
  induction s as [|a s IH]; cbn [contains sub_bar_from truncate_at_bar]; [done|].
  destruct (Ascii.eqb a "010"); [done|]. intros Hs.
  destruct (Ascii.eqb a "|"); [by apply sub_bar_from_inside|].
  by rewrite IH.
Qed.

Lemma text_line_lstrip s : text_line s = true → text_line (lstrip s) = true.
Proof.
  induction s as [|a s IH]; cbn [lstrip]; [done|].
  destruct (isspace a); [|done]. cbn [text_line].
  destruct (Ascii.eqb a "010"); [|apply IH].
  intros ->%String.eqb_eq. done.
Qed.

Lemma rstrip_lf_free s : text_line s = true → contains "010" (rstrip s) = false.
Proof.
  induction s as [|a s IH]; cbn [text_line rstrip]; [done|].
  destruct (Ascii.eqb a "010") eqn:Ha.
  - intros ->%String.eqb_eq. apply Ascii.eqb_eq in Ha as ->. done.
  - intros Hs. specialize (IH Hs).
    destruct (rstrip s) as [|b r].
    + destruct (isspace a); [done|]. cbn [contains]. by rewrite Ha.
    + cbn [contains] in *. by rewrite Ha.
Qed.

Lemma strip_lf_free line : text_line line = true → contains "010" (strip line) = false.
Proof. intros Hl. by apply rstrip_lf_free, text_line_lstrip. Qed.

Lemma drop_chars_lf_free n : ∀ s,
  contains "010" s = false → contains "010" (drop_chars n s) = false.
Proof.
  induction n as [|n IH]; intros [|a s]; cbn [drop_chars contains]; try done.
  destruct (Ascii.eqb a "010"); [done|apply IH].
Qed.

Lemma find_sep_lf_free sep s before after :
  contains "010" s = false → find_sep sep s = Some (before, after) →
  contains "010" after = false.
Proof.
  revert before. induction s as [|a s IH]; intros before Hs.
  - cbn [find_sep]. destruct (String.prefix sep EmptyString); [|done].
    intros [= _ <-]. by apply drop_chars_lf_free.
  - cbn [find_sep]. destruct (String.prefix sep (String a s)).
    + intros [= _ <-]. by apply drop_chars_lf_free.
    + cbn [contains] in Hs. destruct (Ascii.eqb a "010"); [done|].
      destruct (find_sep sep s) as [[b' a']|] eqn:Hfind; [|done].
      intros [= _ <-]. by eapply IH.
Qed.

Lemma partition_lf_free sep s :
  contains "010" s = false → contains "010" (partition sep s).2 = false.
Proof.
  intros Hs. unfold partition.
  destruct (find_sep sep s) as [[before after]|] eqn:Hfind; [|done].
  by eapply find_sep_lf_free.
Qed.

Lemma dd_get_append key value entry k :
  dd_get (dd_append key value entry) k =
    if decide (key = k) then dd_get entry key ++ [value] else dd_get entry k.
Proof.
  unfold dd_append. unfold dd_get at 1. rewrite lookup_insert.
  by destruct (decide (key = k)).
Qed.

Lemma lf_free_empty : lf_free ∅.
Proof. intros key value. unfold dd_get. rewrite lookup_empty. by intros ?%elem_of_nil. Qed.

Lemma lf_free_append key value entry :
  contains "010" value = false → lf_free entry → lf_free (dd_append key value entry).
Proof.
  intros Hv He k v. rewrite dd_get_append.
  destruct (decide (key = k)) as [->|Hne]; [|apply He].
  intros [Hin| ->%list_elem_of_singleton]%elem_of_app; [by eapply He|done].
Qed.

(** Every record read from the lines of a text file is free of line
    feeds. *)
Lemma scan_lf_free fin : ∀ entry,
  Forall (fun line => text_line line = true) fin →
  (∀ e, entry = Some e → lf_free e) →
  Forall lf_free (scan entry fin).1.
Proof.
  induction fin as [|line fin IH]; intros entry Hfin Hentry.
  - cbn [scan fst]. destruct entry as [e|]; [|constructor].
    unfold yield_if. destruct (truthy (Some e)); repeat constructor. by apply Hentry.
  - inversion_clear Hfin as [|? ? Hline Hrest]. cbn [scan].
    destruct (String.eqb (strip line) EmptyString); [by apply IH|].
    destruct (String.eqb (strip line) NEWRECORD).
    + rewrite trace_bind_yielded. cbn [fst]. apply Forall_app. split.
      * destruct entry as [e|]; [|constructor].
        unfold yield_if. destruct (truthy (Some e)); repeat constructor. by apply Hentry.
      * apply IH; [done|]. intros e [= <-]. apply lf_free_empty.
    + pose proof (partition_lf_free " = " (strip line) (strip_lf_free line Hline)) as Hv.
      destruct (partition " = " (strip line)) as [key value].
      destruct entry as [e|]; [|constructor].
      apply IH; [done|]. intros e' [= <-].
      apply lf_free_append; [done|]. by apply Hentry.
Qed.

(** On a value read from a line of a text file the formatted line holds
    the value cut at its first bar. *)
Lemma synonym_line_text_value fin e value :
  Forall (fun line => text_line line = true) fin →
  e ∈ (readMeSH fin).1 →
  value ∈ dd_get e "ENTRY" →
  synonym_line value =
    "synonym: " +:+ String dquote (truncate_at_bar value +:+ String dquote " EXACT []").
Proof.
  intros Hfin He Hvalue. unfold synonym_line. do 3 f_equal.
  apply sub_bar_truncate.
  rewrite readMeSH_yields in He.
  apply elem_of_app in He as [He|He].
  - unfold top_level_entries in He.
    apply list_elem_of_fmap in He as (kv & -> & _).
    destruct (provideEntry_fields kv.1 kv.2) as (_ & _ & Hentry & _).
    rewrite Hentry in Hvalue. by apply elem_of_nil in Hvalue.
  - pose proof (scan_lf_free fin None Hfin ltac:(done)) as Hfree.
    rewrite Forall_forall in Hfree. by apply (Hfree e He "ENTRY").
Qed.

(** A stanza that stops before its synonym lines. *)
Lemma write_entry_raises_early parentList entry :
  (dd_get entry "UI" = [] →
   write_entry parentList entry = (["[Term]"], Raise IndexError)) ∧
  (∀ ui uis, dd_get entry "UI" = ui :: uis → dd_get entry "MH" = [] →
   write_entry parentList entry = (["[Term]"; "id: " +:+ ui], Raise IndexError)).
Proof.
  unfold write_entry. split.
  - by intros ->.
  - intros ui uis -> ->. cbn [list_at0].
    by rewrite trace_bind_produce, trace_bind_lift_Ok, trace_bind_produce.
Qed.

(** The lines of a stanza that gets past its name line: the synonym lines
    of the ENTRY values, then [is_a] lines, then the blank line when the
    stanza is completed. *)
Lemma write_entry_reaches_synonyms parentList entry ui uis mh mhs :
  dd_get entry "UI" = ui :: uis →
  dd_get entry "MH" = mh :: mhs →
  ∃ parents tail,
    (write_entry parentList entry).1 =
      [ "[Term]"; "id: " +:+ ui; "name: " +:+ mh ]
        ++ map synonym_line (dd_get entry "ENTRY")
        ++ map (fun p => "is_a: " +:+ p) parents ++ tail ∧
    (tail = [] ∨ tail = [ EmptyString ]).
Proof.
  intros Hui Hmh. unfold write_entry. rewrite Hui, Hmh. cbn [list_at0].
  rewrite trace_bind_produce, trace_bind_lift_Ok.
  rewrite trace_bind_produce, trace_bind_lift_Ok, trace_bind_produce.
  rewrite trace_bind_yielded. cbn [fst].
  destruct (is_a_loop_lines parentList (dd_get entry "MN") []) as (ps & Hout & _ & _).
  destruct (is_a_loop parentList [] (dd_get entry "MN")) as [out [[]|x]];
    cbn [fst] in Hout; subst out.
  - exists ps, [ EmptyString ]. split; [done|by right].
  - exists ps, []. split; [|by left].
    unfold mbind, trace_bind. cbn [fst snd]. by rewrite app_nil_r.
Qed.

(** C8. In the stanza that the emitter prints for a record read from the
    lines of a text file, every synonym line is the line of an ENTRY value
    of the record, holding the value cut at its first bar between double
    quotes and followed by [EXACT []]; and when the record has an id and a
    name the stanza holds one such line per ENTRY value, in their order,
    right after the name line, followed by [is_a] lines and the blank line
    only. *)
Theorem synonym_line_truncated fin e parentList :
  Forall (fun line => text_line line = true) fin →
  e ∈ (readMeSH fin).1 →
  (∀ line, line ∈ (write_entry parentList e).1 →
     String.prefix "synonym: " line = true →
     ∃ value, value ∈ dd_get e "ENTRY" ∧
       line = "synonym: " +:+
                String dquote (truncate_at_bar value +:+ String dquote " EXACT []")) ∧
  (∀ ui uis mh mhs,
     dd_get e "UI" = ui :: uis → dd_get e "MH" = mh :: mhs →
     ∃ parents tail,
       (write_entry parentList e).1 =
         [ "[Term]"; "id: " +:+ ui; "name: " +:+ mh ]
           ++ map (fun value =>
                     "synonym: " +:+
                       String dquote (truncate_at_bar value +:+ String dquote " EXACT []"))
                (dd_get e "ENTRY")
           ++ map (fun p => "is_a: " +:+ p) parents ++ tail ∧
       (tail = [] ∨ tail = [ EmptyString ])).
Proof.
  intros Hfin He.
  assert (Hsyn : ∀ ui uis mh mhs,
     dd_get e "UI" = ui :: uis → dd_get e "MH" = mh :: mhs →
     ∃ parents tail,
       (write_entry parentList e).1 =
         [ "[Term]"; "id: " +:+ ui; "name: " +:+ mh ]
           ++ map (fun value =>
                     "synonym: " +:+
                       String dquote (truncate_at_bar value +:+ String dquote " EXACT []"))
                (dd_get e "ENTRY")
           ++ map (fun p => "is_a: " +:+ p) parents ++ tail ∧
       (tail = [] ∨ tail = [ EmptyString ])).
  { intros ui uis mh mhs Hui Hmh.
    destruct (write_entry_reaches_synonyms parentList e ui uis mh mhs Hui Hmh)
      as (ps & tail & Hout & Htail).
    exists ps, tail. split; [|done]. rewrite Hout. do 2 f_equal.
    apply Forall_fmap_ext_1, Forall_forall. intros value Hvalue.
    by apply (synonym_line_text_value fin e). }
  split; [|exact Hsyn].
  intros line Hline Hprefix.
  destruct (dd_get e "UI") as [|ui uis] eqn:Hui.
  { pose proof (proj1 (write_entry_raises_early parentList e) Hui) as Hout.
    rewrite Hout in Hline. cbn [fst] in Hline.
    apply list_elem_of_singleton in Hline as ->. done. }
  destruct (dd_get e "MH") as [|mh mhs] eqn:Hmh.
  { pose proof (proj2 (write_entry_raises_early parentList e) ui uis Hui Hmh) as Hout.
    rewrite Hout in Hline. cbn [fst] in Hline.
    apply elem_of_cons in Hline as [->|Hline]; [done|].
    apply list_elem_of_singleton in Hline as ->. done. }
  destruct (Hsyn ui uis mh mhs eq_refl eq_refl) as (ps & tail & Hout & Htail).
  rewrite Hout in Hline.
  apply elem_of_app in Hline as [Hline|Hline].
  { apply elem_of_cons in Hline as [->|Hline]; [done|].
    apply elem_of_cons in Hline as [->|Hline]; [done|].
    apply list_elem_of_singleton in Hline as ->. done. }
  apply elem_of_app in Hline as [Hline|Hline].
  { apply list_elem_of_fmap in Hline as (value & -> & Hvalue). by exists value. }
  apply elem_of_app in Hline as [Hline|Hline].
  { apply list_elem_of_fmap in Hline as (p & -> & _). done. }
  destruct Htail as [->| ->].
  - by apply elem_of_nil in Hline.
  - apply list_elem_of_singleton in Hline as ->. done.
Qed.

Lemma synonym_line_truncated_witness :
  Forall (fun line => text_line line = true) lines_example ∧
  record_example ∈ (readMeSH lines_example).1 ∧
  ∃ parents tail,
    (write_entry {["C06.198" := "D000099"]} record_example).1 =
      [ "[Term]"; "id: D000123"; "name: Example Concept" ]
        ++ [ "synonym: " +:+ String dquote ("Foo Bar" +:+ String dquote " EXACT []") ]
        ++ map (fun p => "is_a: " +:+ p) parents ++ tail.
Proof.
  assert (Hfin : Forall (fun line => text_line line = true) lines_example).
  { by repeat constructor. }
  assert (He : record_example ∈ (readMeSH lines_example).1).
  { apply (bool_decide_unpack _). by vm_compute. }
  split; [exact Hfin|]. split; [exact He|].
  destruct (proj2 (synonym_line_truncated lines_example record_example
                     {["C06.198" := "D000099"]} Hfin He)
              "D000123" [] "Example Concept" [] eq_refl eq_refl)
    as (parents & tail & Hout & _).
  exists parents, tail. exact Hout.
Defined.

(** ** The scenario of the specification, end to end *)

Example write_obo_example :
  build_from {["C06.198" := "D000099"]} (readMeSH lines_example).1
    = Ok (<["C06.198.100" := "D000123"]> {["C06.198" := "D000099"]}) ∧
  write_entries (<["C06.198.100" := "D000123"]> {["C06.198" := "D000099"]})
    (scan None lines_example).1 =
    ([ "[Term]";
       "id: D000123";
       "name: Example Concept";
       "synonym: " +:+ String dquote ("Foo Bar" +:+ String dquote " EXACT []");
       "is_a: D000099";
       EmptyString ], Ok tt).
Proof. by vm_compute. Qed.

(** * Further properties of the notebook's code *)

(** ** Splitting a field line: [line.partition(" = ")] *)

Lemma append_assoc_str (s t u : string) : (s +:+ t) +:+ u = s +:+ t +:+ u.
Proof. induction s as [|a s IH]; [done|]. exact (f_equal (String a) IH). Qed.

Lemma prefix_append sep rest : String.prefix sep (sep +:+ rest) = true.
Proof.
  induction sep as [|a sep IH]; [by destruct rest|].
  change (String.prefix (String a sep) (String a sep +:+ rest))
    with (if ascii_dec a a then String.prefix sep (sep +:+ rest) else false).
  by destruct (ascii_dec a a).
Qed.

Lemma prefix_split sep : ∀ s,
  String.prefix sep s = true → s = sep +:+ drop_chars (String.length sep) s.
Proof.
  induction sep as [|a sep IH]; intros s; [done|].
  destruct s as [|b s]; [done|]. cbn [String.prefix].
  destruct (ascii_dec a b) as [->|]; [|done].
  intros Hp. exact (f_equal (String b) (IH s Hp)).
Qed.

Lemma find_sep_sound sep : ∀ s key value,
  find_sep sep s = Some (key, value) → s = key +:+ sep +:+ value.
Proof.
  induction s as [|a s IH]; intros key value.
  - cbn [find_sep]. destruct (String.prefix sep EmptyString) eqn:Hp; [|done].
    intros [= <- <-]. by apply prefix_split.
  - cbn [find_sep]. destruct (String.prefix sep (String a s)) eqn:Hp.
    + intros [= <- <-]. by apply prefix_split.
    + destruct (find_sep sep s) as [[before after]|] eqn:Hfind; [|done].
      intros [= <- <-]. exact (f_equal (String a) (IH before after eq_refl)).
Qed.

Lemma find_sep_first sep : ∀ s key value key' value',
  find_sep sep s = Some (key, value) → s = key' +:+ sep +:+ value' →
  String.length key ≤ String.length key'.
Proof.
  induction s as [|a s IH]; intros key value key' value'.
  - cbn [find_sep]. destruct (String.prefix sep EmptyString); [|done].
    intros [= <- <-] _. cbn. lia.
  - cbn [find_sep]. destruct (String.prefix sep (String a s)) eqn:Hp.
    + intros [= <- <-] _. cbn. lia.
    + destruct (find_sep sep s) as [[before after]|] eqn:Hfind; [|done].
      intros [= <- <-] Hs. destruct key' as [|b key'].
      * change (String a s = sep +:+ value') in Hs.
        by rewrite Hs, prefix_append in Hp.
      * change (String a s = String b (key' +:+ sep +:+ value')) in Hs.
        injection Hs as _ Hs.
        cbn [String.length]. apply le_n_S. by eapply IH.
Qed.

Lemma find_sep_complete sep : ∀ s key' value',
  s = key' +:+ sep +:+ value' → is_Some (find_sep sep s).
Proof.
  induction s as [|a s IH]; intros key' value' Hs.
  - destruct key' as [|b key']; [|done].
    change (EmptyString = sep +:+ value') in Hs.
    cbn [find_sep]. rewrite Hs at 1. rewrite prefix_append. eauto.
  - cbn [find_sep]. destruct (String.prefix sep (String a s)) eqn:Hp; [eauto|].
    destruct key' as [|b key'].
    + change (String a s = sep +:+ value') in Hs.
      by rewrite Hs, prefix_append in Hp.
    + change (String a s = String b (key' +:+ sep +:+ value')) in Hs.
      injection Hs as _ Hs.
      destruct (IH key' value' Hs) as [[before after] ->]. eauto.
Qed.

(** X1. When a separator that is not empty occurs in the line,
    [partition] splits the line at its first occurrence: the key, the
    separator and the value make up the line again, and no occurrence
    begins before the end of the key. *)
Theorem partition_first_occurrence sep line key' value' :
  sep ≠ EmptyString →
  line = key' +:+ sep +:+ value' →
  line = (partition sep line).1 +:+ sep +:+ (partition sep line).2 ∧
  String.length (partition sep line).1 ≤ String.length key'.
Proof.
  intros _ Hline. unfold partition.
  destruct (find_sep_complete sep line key' value' Hline) as [[key value] Hfind].
  rewrite Hfind. cbn [fst snd]. split.
  - by apply find_sep_sound.
  - by eapply find_sep_first.
Qed.

Lemma partition_first_occurrence_witness :
  " = " ≠ EmptyString ∧
  "UI = D1 = x" = "UI = D1" +:+ " = " +:+ "x" ∧
  "UI = D1 = x" = (partition " = " "UI = D1 = x").1 +:+ " = " +:+ (partition " = " "UI = D1 = x").2 ∧
  String.length (partition " = " "UI = D1 = x").1 ≤ String.length "UI = D1".
Proof.
  assert (Hsep : " = " ≠ EmptyString) by discriminate.
  split; [exact Hsep|]. split; [reflexivity|].
  exact (partition_first_occurrence " = " "UI = D1 = x" "UI = D1" "x" Hsep eq_refl).
Defined.

(** X2. A line in which the separator does not occur is kept whole as
    the key, with the empty string as its value. *)
Theorem partition_no_separator sep line :
  (∀ key value, line ≠ key +:+ sep +:+ value) →
  partition sep line = (line, EmptyString).
Proof.
  intros Hno. unfold partition.
  destruct (find_sep sep line) as [[key value]|] eqn:Hfind; [|done].
  destruct (Hno key value). by apply find_sep_sound.
Qed.

Lemma partition_no_separator_witness :
  (∀ key value, "UI" ≠ key +:+ " = " +:+ value) ∧
  partition " = " "UI" = ("UI", EmptyString).
Proof.
  assert (Hno : ∀ key value, "UI" ≠ key +:+ " = " +:+ value).
  { intros key value Heq.
    destruct (find_sep_complete " = " "UI" key value Heq) as [kv Hfind].
    vm_compute in Hfind. discriminate Hfind. }
  split; [exact Hno|].
  exact (partition_no_separator " = " "UI" Hno).
Defined.

(** ** The scan of [readMeSH] over the lines *)

(** X3. Blank lines never matter: the scan of the lines is the scan of
    the lines that are not blank, from any state. *)
Theorem scan_skips_blank fin : ∀ entry,
  scan entry fin = scan entry (filter (fun line => is_blank line = false) fin).
Proof.
  induction fin as [|line fin IH]; intros entry; [done|].
  destruct (is_blank line) eqn:Hblank.
  - rewrite filter_cons_False by (by rewrite Hblank).
    cbn [scan]. unfold is_blank in Hblank. rewrite Hblank. apply IH.
  - rewrite filter_cons_True by done.
    cbn [scan]. unfold is_blank in Hblank. rewrite Hblank.
    destruct (String.eqb (strip line) NEWRECORD).
    + by rewrite !trace_bind_yielded, <- IH.
    + destruct (partition " = " (strip line)) as [key value].
      destruct entry as [e|]; [apply IH|done].
Qed.

Lemma trace_bind_assoc_yielded {W B} (ws : list W) (t : trace W unit) (k : trace W B) :
  (((ws, Ok tt) ;; t) ;; k) = ((ws, Ok tt) ;; (t ;; k)).
Proof.
  rewrite !trace_bind_yielded. destruct t as [ws' [[]|e]]; [|done].
  unfold mbind, trace_bind. cbn [fst snd]. by rewrite app_assoc.
Qed.

(** X4. A sentinel line cuts the input in two: the records of the whole
    are the records of the lines before it, as if the input ended there,
    followed by the records of the lines after it read from a fresh
    record; an exception before the sentinel ends the whole. *)
Theorem scan_cut_at_sentinel sentinel later earlier : ∀ entry,
  is_sentinel sentinel = true →
  scan entry (earlier ++ sentinel :: later) =
    (scan entry earlier ;; scan (Some ∅) later).
Proof.
  intros entry Hs. revert entry. unfold is_sentinel in Hs.
  assert (Hnb : String.eqb (strip sentinel) EmptyString = false).
  { apply String.eqb_eq in Hs. by rewrite Hs. }
  induction earlier as [|line earlier IH]; intros entry.
  - cbn [app scan]. by rewrite Hnb, Hs.
  - cbn [app scan].
    destruct (String.eqb (strip line) EmptyString); [apply IH|].
    destruct (String.eqb (strip line) NEWRECORD).
    + by rewrite IH, trace_bind_assoc_yielded.
    + destruct (partition " = " (strip line)) as [key value].
      destruct entry as [e|]; [apply IH|done].
Qed.

Lemma scan_cut_at_sentinel_witness :
  is_sentinel ("*NEWRECORD" +:+ LF) = true ∧
  scan None (lines_example ++ ("*NEWRECORD" +:+ LF) :: ["UI = D000001" +:+ LF]) =
    ([record_example; dd_append "UI" "D000001" ∅], Ok tt).
Proof.
  split; [reflexivity|].
  rewrite (scan_cut_at_sentinel ("*NEWRECORD" +:+ LF) ["UI = D000001" +:+ LF]
             lines_example None eq_refl).
  by vm_compute.
Defined.

Lemma is_field_false line :
  is_field line = true →
  String.eqb (strip line) EmptyString = false ∧ String.eqb (strip line) NEWRECORD = false.
Proof.
  unfold is_field, is_blank, is_sentinel.
  by destruct (String.eqb (strip line) EmptyString), (String.eqb (strip line) NEWRECORD).
Qed.

(** A run of field lines, from an open record: the scan goes on from the
    record with the fields of the lines appended one by one. *)
Lemma scan_fields_fold lines rest : ∀ e,
  Forall (fun line => is_field line = true) lines →
  scan (Some e) (lines ++ rest) =
    scan (Some (foldl (fun e' line => dd_append (field_of line).1 (field_of line).2 e')
                  e lines)) rest.
Proof.
  induction lines as [|line lines IH]; intros e Hlines; [done|].
  inversion_clear Hlines as [|? ? Hline Hrest].
  destruct (is_field_false line Hline) as [Hnb Hns].
  cbn [app scan foldl]. rewrite Hnb, Hns, <- (IH _ Hrest). fold (field_of line).
  by destruct (field_of line) as [key value].
Qed.

Lemma dd_get_fold_fields lines key : ∀ e,
  dd_get (foldl (fun e' line => dd_append (field_of line).1 (field_of line).2 e')
            e lines) key =
    dd_get e key ++
    ((fun line => (field_of line).2) <$>
       filter (fun line => (field_of line).1 = key) lines).
Proof.
  induction lines as [|line lines IH]; intros e; cbn [foldl].
  - by rewrite app_nil_r.
  - rewrite IH, dd_get_append.
    destruct (decide ((field_of line).1 = key)) as [Hk|Hk].
    + rewrite filter_cons_True by done. rewrite Hk. by rewrite <- app_assoc.
    + by rewrite filter_cons_False by done.
Qed.

(** X5. Field lines keep the record open and accumulate: after a run of
    field lines the scan goes on from a record in which every key holds
    what it held before, followed by the values of the lines with that
    key, in the order of the lines. *)
Theorem scan_fields_accumulate lines rest e :
  Forall (fun line => is_field line = true) lines →
  ∃ e', scan (Some e) (lines ++ rest) = scan (Some e') rest ∧
    ∀ key, dd_get e' key =
           dd_get e key ++
           ((fun line => (field_of line).2) <$>
              filter (fun line => (field_of line).1 = key) lines).
Proof.
  intros Hlines. eexists. split.
  - by apply scan_fields_fold.
  - intros key. apply dd_get_fold_fields.
Qed.

Lemma scan_fields_accumulate_witness :
  Forall (fun line => is_field line = true)
    ["MN = C06" +:+ LF; "MH = Foo" +:+ LF; "MN = C07" +:+ LF] ∧
  ∃ e', scan (Some ∅) (["MN = C06" +:+ LF; "MH = Foo" +:+ LF; "MN = C07" +:+ LF] ++ [])
          = scan (Some e') [] ∧
        dd_get e' "MN" = ["C06"; "C07"].
Proof.
  assert (Hlines : Forall (fun line => is_field line = true)
                     ["MN = C06" +:+ LF; "MH = Foo" +:+ LF; "MN = C07" +:+ LF]).
  { by repeat constructor. }
  split; [exact Hlines|].
  destruct (scan_fields_accumulate _ [] ∅ Hlines) as (e' & Hscan & Hget).
  exists e'. split; [exact Hscan|]. rewrite Hget. by vm_compute.
Defined.

Lemma fields_kept_empty (k : string) (l : list string) :
  (∅ : gmap string (list string)) !! k = Some l → l ≠ [].
Proof. by rewrite lookup_empty. Qed.

Lemma fields_kept_append key value (e : gmap string (list string)) :
  (∀ k l, e !! k = Some l → l ≠ []) →
  ∀ k l, dd_append key value e !! k = Some l → l ≠ [].
Proof.
  intros He k l. unfold dd_append. rewrite lookup_insert.
  destruct (decide (key = k)) as [->|Hne]; [|apply He].
  intros [= <-]. by destruct (dd_get e k).
Qed.

Lemma scan_yields_fields fin : ∀ entry,
  (∀ e, entry = Some e → ∀ k l, e !! k = Some l → l ≠ []) →
  Forall (fun e => e ≠ ∅ ∧ ∀ k l, e !! k = Some l → l ≠ []) (scan entry fin).1.
Proof.
  assert (Hyield : ∀ entry,
    (∀ e, entry = Some e → ∀ k l, e !! k = Some l → l ≠ []) →
    Forall (fun e => e ≠ ∅ ∧ ∀ k l, e !! k = Some l → l ≠ []) (yield_if entry)).
  { intros [e|] He; [|constructor]. unfold yield_if, truthy.
    destruct (decide (e = ∅)) as [->|Hne].
    - rewrite bool_decide_true by done. constructor.
    - rewrite bool_decide_false by done. repeat constructor; [done|by apply He]. }
  induction fin as [|line fin IH]; intros entry Hentry; cbn [scan].
  - by apply Hyield.
  - destruct (String.eqb (strip line) EmptyString); [by apply IH|].
    destruct (String.eqb (strip line) NEWRECORD).
    + rewrite trace_bind_yielded. apply Forall_app. split; [by apply Hyield|].
      apply IH. intros e [= <-]. apply fields_kept_empty.
    + destruct (partition " = " (strip line)) as [key value].
      destruct entry as [e|]; [|constructor].
      apply IH. intros e' [= <-]. apply fields_kept_append. by apply Hentry.
Qed.

(** X6. [readMeSH] never yields a record without a field: every record
    it yields, synthetic or read from the lines, holds at least one value
    under some key. *)
Theorem readMeSH_records_have_a_field fin e :
  e ∈ (readMeSH fin).1 → ∃ key value values, dd_get e key = value :: values.
Proof.
  rewrite readMeSH_yields. intros [He|He]%elem_of_app.
  - unfold top_level_entries in He. apply list_elem_of_fmap in He as (kv & -> & _).
    exists "UI", kv.1, []. apply provideEntry_fields.
  - pose proof (scan_yields_fields fin None ltac:(done)) as Hall.
    rewrite Forall_forall in Hall. destruct (Hall e He) as [Hne Hkept].
    destruct (map_choose e Hne) as (key & l & Hl).
    destruct l as [|value values]; [by destruct (Hkept key [] Hl)|].
    exists key, value, values. unfold dd_get. by rewrite Hl.
Qed.

Lemma readMeSH_records_have_a_field_witness :
  record_example ∈ (readMeSH lines_example).1 ∧
  ∃ key value values, dd_get record_example key = value :: values.
Proof.
  assert (He : record_example ∈ (readMeSH lines_example).1).
  { apply (bool_decide_unpack _). by vm_compute. }
  split; [exact He|].
  exact (readMeSH_records_have_a_field lines_example record_example He).
Defined.

(** ** The build step and the lookup together *)

Lemma build_from_no_trees entries : ∀ parentList,
  Forall (fun e => dd_get e "MN" = []) entries →
  build_from parentList entries = Ok parentList.
Proof.
  induction entries as [|e entries IH]; intros parentList Hno; [done|].
  inversion_clear Hno as [|? ? He Hrest]. cbn [build_from]. rewrite He.
  by apply IH.
Qed.

(** X7. Records without a tree position add nothing to the map: a build
    that begins with such records ends as the build over the records after
    them. The synthetic records are of this kind. *)
Theorem build_skips_records_without_trees parentList entries rest :
  Forall (fun e => dd_get e "MN" = []) entries →
  build_from parentList (entries ++ rest) = build_from parentList rest.
Proof.
  intros Hno. by rewrite build_from_app, (build_from_no_trees entries parentList Hno).
Qed.

Lemma build_skips_records_without_trees_witness :
  Forall (fun e => dd_get e "MN" = []) top_level_entries ∧
  build_from ∅ (top_level_entries ++ [record_D000002]) = Ok {["C06" := "D000002"]}.
Proof.
  assert (Hno : Forall (fun e => dd_get e "MN" = []) top_level_entries).
  { by repeat constructor. }
  split; [exact Hno|].
  rewrite (build_skips_records_without_trees ∅ top_level_entries [record_D000002] Hno).
  by vm_compute.
Defined.

(** X8. A record that has a tree position and no id stops the build
    with [IndexError], whatever follows it, when the records before it
    each have an id or no tree position. *)
Theorem build_raises_without_id parentList earlier e later :
  Forall (fun e' => dd_get e' "MN" ≠ [] → dd_get e' "UI" ≠ []) earlier →
  dd_get e "MN" ≠ [] →
  dd_get e "UI" = [] →
  build_from parentList (earlier ++ e :: later) = Raise IndexError.
Proof.
  intros Hwf Hmn Hui. rewrite build_from_app.
  destruct (build_from_total parentList earlier Hwf) as (m & ->).
  cbn [mbind result_bind build_from].
  destruct (dd_get e "MN") as [|tree trees]; [done|].
  cbn [add_trees]. by rewrite Hui.
Qed.

Lemma build_raises_without_id_witness :
  Forall (fun e' => dd_get e' "MN" ≠ [] → dd_get e' "UI" ≠ []) [record_D000001] ∧
  dd_get (dd_append "MN" "C08" ∅) "MN" ≠ [] ∧
  dd_get (dd_append "MN" "C08" ∅) "UI" = [] ∧
  build_from ∅ ([record_D000001] ++ dd_append "MN" "C08" ∅ :: [record_D000002])
    = Raise IndexError.
Proof.
  assert (Hwf : Forall (fun e' => dd_get e' "MN" ≠ [] → dd_get e' "UI" ≠ [])
                  [record_D000001]).
  { repeat constructor. intros _. by vm_compute. }
  assert (Hmn : dd_get (dd_append "MN" "C08" ∅) "MN" ≠ []) by (by vm_compute).
  split; [exact Hwf|]. split; [exact Hmn|]. split; [reflexivity|].
  exact (build_raises_without_id ∅ [record_D000001] (dd_append "MN" "C08" ∅)
           [record_D000002] Hwf Hmn eq_refl).
Defined.

(** The last record that lists a tree position owns it, from any map. *)
Lemma build_from_last parentList0 earlier e later t ui parentList :
  build_from parentList0 (earlier ++ e :: later) = Ok parentList →
  t ∈ dd_get e "MN" →
  Forall (fun e' => t ∉ dd_get e' "MN") later →
  list_at0 (dd_get e "UI") = Ok ui →
  parentList !! t = Some ui.
Proof.
  intros Hbuild Ht Hlater Hui. rewrite build_from_app in Hbuild.
  apply result_bind_Ok in Hbuild as (m1 & _ & Hbuild). cbn [build_from] in Hbuild.
  apply result_bind_Ok in Hbuild as (m2 & Hadd & Hbuild).
  destruct (add_trees_lookup e ui (dd_get e "MN") m1 Hui) as (m2' & Hadd' & Hl).
  rewrite Hadd in Hadd'. injection Hadd' as <-.
  rewrite (build_from_untouched t later m2 parentList Hlater Hbuild), Hl.
  by rewrite decide_True.
Qed.

(** The regular expression on a position that ends in a dot and a
    segment gives the position before that dot. *)
Lemma sub_last_segment_append t seg :
  seg ≠ EmptyString → contains "." seg = false →
  contains "." (t +:+ String "." seg) = true ∧
  sub_last_segment (t +:+ String "." seg) = t.
Proof.
  intros Hseg Hdot. induction t as [|a t [IHc IHs]].
  - change (EmptyString +:+ String "." seg) with (String "." seg).
    cbn [contains sub_last_segment Ascii.eqb]. split; [done|].
    rewrite Hdot. destruct seg; [done|]. done.
  - change (String a t +:+ String "." seg) with (String a (t +:+ String "." seg)).
    cbn [contains sub_last_segment]. rewrite IHc, IHs, andb_false_r.
    by destruct (Ascii.eqb a ".").
Qed.

(** X9. The two cells together: after the build over records that each
    have an id or no tree position, the position [t.seg], with [seg] a
    segment that is not empty, resolves to the id of the last record that
    lists [t]. *)
Theorem child_resolves_to_last_owner earlier e later t seg ui :
  Forall (fun e' => dd_get e' "MN" ≠ [] → dd_get e' "UI" ≠ [])
    (earlier ++ e :: later) →
  t ∈ dd_get e "MN" →
  Forall (fun e' => t ∉ dd_get e' "MN") later →
  list_at0 (dd_get e "UI") = Ok ui →
  seg ≠ EmptyString → contains "." seg = false →
  ∃ parentList, build_from ∅ (earlier ++ e :: later) = Ok parentList ∧
    getParent parentList (t +:+ String "." seg) = Ok (Some ui).
Proof.
  intros Hwf Ht Hlater Hui Hseg Hdot.
  destruct (build_from_total ∅ _ Hwf) as (parentList & Hbuild).
  exists parentList. split; [done|].
  destruct (sub_last_segment_append t seg Hseg Hdot) as [Hc Hs].
  unfold getParent. rewrite Hc, Hs.
  by rewrite (build_from_last ∅ earlier e later t ui parentList Hbuild Ht Hlater Hui).
Qed.

Lemma child_resolves_to_last_owner_witness :
  Forall (fun e' => dd_get e' "MN" ≠ [] → dd_get e' "UI" ≠ [])
    ([record_D000001] ++ record_D000002 :: []) ∧
  "C06" ∈ dd_get record_D000002 "MN" ∧
  ∃ parentList, build_from ∅ ([record_D000001] ++ record_D000002 :: []) = Ok parentList ∧
    getParent parentList ("C06" +:+ String "." "198") = Ok (Some "D000002").
Proof.
  assert (Hwf : Forall (fun e' => dd_get e' "MN" ≠ [] → dd_get e' "UI" ≠ [])
                  ([record_D000001] ++ record_D000002 :: [])).
  { repeat constructor; intros _; by vm_compute. }
  assert (Ht : "C06" ∈ dd_get record_D000002 "MN").
  { apply (bool_decide_unpack _). by vm_compute. }
  split; [exact Hwf|]. split; [exact Ht|].
  apply (child_resolves_to_last_owner [record_D000001] record_D000002 [] "C06" "198"
           "D000002" Hwf Ht); [constructor | reflexivity | discriminate | reflexivity].
Defined.

Lemma add_trees_value entry trees : ∀ parentList parentList' t ui,
  add_trees entry trees parentList = Ok parentList' →
  parentList' !! t = Some ui →
  parentList !! t = Some ui ∨ (t ∈ trees ∧ list_at0 (dd_get entry "UI") = Ok ui).
Proof.
  induction trees as [|tree trees IH]; intros parentList parentList' t ui; cbn [add_trees].
  - intros [= ->]. by left.
  - intros (ui' & Hui & Hadd)%result_bind_Ok Ht.
    destruct (IH _ _ t ui Hadd Ht) as [Hm|[Hin Hid]].
    + rewrite lookup_insert in Hm. destruct (decide (tree = t)) as [->|Hne].
      * injection Hm as <-. right. split; [by left|done].
      * by left.
    + right. split; [by right|done].
Qed.

Lemma build_from_values entries : ∀ parentList parentList' t ui,
  build_from parentList entries = Ok parentList' →
  parentList' !! t = Some ui →
  parentList !! t = Some ui ∨
  ∃ e, e ∈ entries ∧ t ∈ dd_get e "MN" ∧ list_at0 (dd_get e "UI") = Ok ui.
Proof.
  induction entries as [|e entries IH]; intros parentList parentList' t ui; cbn [build_from].
  - intros [= ->]. by left.
  - intros (m & Hadd & Hbuild)%result_bind_Ok Ht.
    destruct (IH _ _ t ui Hbuild Ht) as [Hm|(e' & He' & Hin & Hid)].
    + destruct (add_trees_value e _ _ _ t ui Hadd Hm) as [?|[Hin Hid]]; [by left|].
      right. exists e. split; [by left|done].
    + right. exists e'. split; [by right|done].
Qed.

(** X10. After the build, the parent that [getParent] returns for a
    position with a dot is always the id of a record of the input, one
    that lists the looked-up position among its tree positions; it is
    never a tree position or a string that no record has as its id. *)
Theorem dotted_parent_is_a_record_id entries parentList id parent :
  build_from ∅ entries = Ok parentList →
  contains "." id = true →
  getParent parentList id = Ok (Some parent) →
  ∃ e, e ∈ entries ∧ sub_last_segment id ∈ dd_get e "MN" ∧
       list_at0 (dd_get e "UI") = Ok parent.
Proof.
  intros Hbuild Hdot. unfold getParent. rewrite Hdot.
  destruct (parentList !! sub_last_segment id) as [ui|] eqn:Hkey; [|done].
  intros [= <-].
  destruct (build_from_values entries ∅ parentList _ ui Hbuild Hkey) as [Hempty|?]; [|done].
  by rewrite lookup_empty in Hempty.
Qed.

Lemma dotted_parent_is_a_record_id_witness :
  build_from ∅ [record_D000001; record_D000002]
    = Ok (<["C06" := "D000002"]> (<["C07" := "D000001"]> {["C06" := "D000001"]})) ∧
  ∃ e, e ∈ [record_D000001; record_D000002] ∧
       sub_last_segment "C07.100" ∈ dd_get e "MN" ∧
       list_at0 (dd_get e "UI") = Ok "D000001".
Proof.
  assert (Hbuild : build_from ∅ [record_D000001; record_D000002]
    = Ok (<["C06" := "D000002"]> (<["C07" := "D000001"]> {["C06" := "D000001"]}))).
  { by vm_compute. }
  split; [exact Hbuild|].
  apply (dotted_parent_is_a_record_id _ _ "C07.100" "D000001" Hbuild);
    [reflexivity | by vm_compute].
Defined.

(** ** The emitter: stanzas *)

Lemma append_inj_r (s t u : string) : s +:+ t = s +:+ u → t = u.
Proof.
  induction s as [|a s IH]; [done|].
  change (String a (s +:+ t) = String a (s +:+ u) → t = u).
  intros [= H]. by apply IH.
Qed.

(** X11. Whatever the tree positions and the map, also when the loop
    stops with an exception, the [is_a] lines printed for a record are
    pairwise different, and each names the parent that [getParent] returns
    for one of the record's tree positions. *)
Theorem is_a_lines_never_repeat parentList trees :
  NoDup (is_a_loop parentList [] trees).1 ∧
  ∀ line, line ∈ (is_a_loop parentList [] trees).1 →
    ∃ t parent, t ∈ trees ∧ getParent parentList t = Ok (Some parent) ∧
                line = "is_a: " +:+ parent.
Proof.
  destruct (is_a_loop_lines parentList trees []) as (ps & -> & Hnd & Hall). split.
  - apply NoDup_fmap_2; [|done]. intros p q. apply append_inj_r.
  - intros line (p & -> & Hp)%list_elem_of_fmap.
    rewrite Forall_forall in Hall. destruct (Hall p Hp) as [_ (t & Ht & Hres)].
    by exists t, p.
Qed.

(** X12. A record without an id, or with an id and without a name,
    stops the output with [IndexError]: the header line, and the id line
    in the second case, are already printed. *)
Theorem write_entry_raises_without_id_or_name parentList entry :
  (dd_get entry "UI" = [] →
   write_entry parentList entry = (["[Term]"], Raise IndexError)) ∧
  (∀ ui uis, dd_get entry "UI" = ui :: uis → dd_get entry "MH" = [] →
   write_entry parentList entry = (["[Term]"; "id: " +:+ ui], Raise IndexError)).
Proof.
  unfold write_entry. split.
  - by intros ->.
  - intros ui uis -> ->. cbn [list_at0].
    by rewrite trace_bind_produce, trace_bind_lift_Ok, trace_bind_produce.
Qed.

Lemma write_entry_raises_without_id_or_name_witness :
  dd_get (dd_append "MH" "Foo" ∅) "UI" = [] ∧
  write_entry ∅ (dd_append "MH" "Foo" ∅) = (["[Term]"], Raise IndexError) ∧
  dd_get (dd_append "UI" "D000001" ∅) "UI" = ["D000001"] ∧
  dd_get (dd_append "UI" "D000001" ∅) "MH" = [] ∧
  write_entry ∅ (dd_append "UI" "D000001" ∅) =
    (["[Term]"; "id: D000001"], Raise IndexError).
Proof.
  split; [reflexivity|]. split.
  - exact (proj1 (write_entry_raises_without_id_or_name ∅ (dd_append "MH" "Foo" ∅))
             eq_refl).
  - split; [reflexivity|]. split; [reflexivity|].
    exact (proj2 (write_entry_raises_without_id_or_name ∅ (dd_append "UI" "D000001" ∅))
             "D000001" [] eq_refl eq_refl).
Defined.

Lemma trace_bind_assoc {W B} (t u : trace W unit) (k : trace W B) :
  ((t ;; u) ;; k) = (t ;; (u ;; k)).
Proof.
  destruct t as [ws [[]|e]]; [|done]. apply trace_bind_assoc_yielded.
Qed.

Lemma write_entries_app parentList entries1 entries2 :
  write_entries parentList (entries1 ++ entries2) =
    (write_entries parentList entries1 ;; write_entries parentList entries2).
Proof.
  induction entries1 as [|e entries1 IH]; cbn [app write_entries].
  - by destruct (write_entries parentList entries2).
  - by rewrite IH, trace_bind_assoc.
Qed.

Lemma write_entries_concat parentList entries stanzas :
  Forall2 (fun e stanza => write_entry parentList e = (stanza, Ok tt)) entries stanzas →
  write_entries parentList entries = (concat stanzas, Ok tt).
Proof.
  induction 1 as [|e stanza entries stanzas He _ IH]; [done|].
  cbn [write_entries concat]. by rewrite He, IH.
Qed.

(** X13. The records are printed in order and the first stanza that
    raises ends the output: what is printed is the stanzas of the records
    before it and the lines of its own stanza printed so far; no record
    after it is printed. *)
Theorem write_entries_stop_at_first_failure parentList earlier stanzas e out x later :
  Forall2 (fun e' stanza => write_entry parentList e' = (stanza, Ok tt)) earlier stanzas →
  write_entry parentList e = (out, Raise x) →
  write_entries parentList (earlier ++ e :: later) = (concat stanzas ++ out, Raise x).
Proof.
  intros Hearlier He. rewrite write_entries_app.
  rewrite (write_entries_concat _ _ _ Hearlier). cbn [write_entries].
  by rewrite He.
Qed.

Lemma write_entries_stop_at_first_failure_witness :
  Forall2 (fun e' stanza => write_entry ∅ e' = (stanza, Ok tt))
    [provideEntry "C" "Diseases"] [top_stanza ("C", "Diseases")] ∧
  write_entry ∅ record_AB = (["[Term]"; "id: D000001"; "name: Foo"], Raise TypeError) ∧
  write_entries ∅ ([provideEntry "C" "Diseases"] ++ record_AB :: [record_D000002]) =
    ([ "[Term]"; "id: C"; "name: Diseases"; EmptyString;
       "[Term]"; "id: D000001"; "name: Foo" ], Raise TypeError).
Proof.
  assert (H1 : Forall2 (fun e' stanza => write_entry ∅ e' = (stanza, Ok tt))
                 [provideEntry "C" "Diseases"] [top_stanza ("C", "Diseases")]).
  { by repeat constructor. }
  assert (H2 : write_entry ∅ record_AB
               = (["[Term]"; "id: D000001"; "name: Foo"], Raise TypeError)).
  { by vm_compute. }
  split; [exact H1|]. split; [exact H2|].
  exact (write_entries_stop_at_first_failure ∅ _ _ record_AB _ TypeError
           [record_D000002] H1 H2).
Defined.

Lemma resolved_Forall2 parentList trees :
  Forall (fun t => is_Some (resolved parentList t)) trees →
  Forall2 (fun t p => getParent parentList t = Ok (Some p)) trees
    (omap (resolved parentList) trees).
Proof.
  induction 1 as [|t trees [p Hp] _ IH]; [constructor|].
  cbn [omap list_omap]. rewrite Hp. constructor; [|done].
  unfold resolved in Hp. by destruct (getParent parentList t) as [[q|]|x]; simplify_eq.
Qed.

Lemma write_entry_printable parentList entry :
  printable parentList entry →
  write_entry parentList entry = (stanza_of parentList entry, Ok tt).
Proof.
  intros (Hui & Hmh & Hres).
  destruct (dd_get entry "UI") as [|ui uis] eqn:Eui; [done|].
  destruct (dd_get entry "MH") as [|mh mhs] eqn:Emh; [done|].
  rewrite (write_entry_stanza parentList entry ui uis mh mhs _ Eui Emh
             (resolved_Forall2 _ _ Hres)).
  unfold stanza_of. by rewrite Eui, Emh.
Qed.

(** With no [None] in [done], the loop runs to its end only when every
    tree position has a parent. *)
Lemma is_a_loop_Ok_resolved parentList trees : ∀ done0 : list (option string),
  None ∉ done0 →
  (is_a_loop parentList done0 trees).2 = Ok tt →
  Forall (fun t => is_Some (resolved parentList t)) trees.
Proof.
  induction trees as [|tree trees IH]; intros done0 Hnone; [constructor|].
  cbn [is_a_loop]. unfold resolved at 1.
  destruct (getParent parentList tree) as [[p|]|x] eqn:Hres.
  - rewrite trace_bind_lift_Ok. intros Hok. constructor.
    { unfold resolved. rewrite Hres. eauto. }
    destruct (decide (Some p ∈ done0)) as [Hin|Hnotin].
    + rewrite bool_decide_true in Hok by done. by eapply IH.
    + rewrite bool_decide_false in Hok by done. cbn [str_add] in Hok.
      rewrite trace_bind_lift_Ok, trace_bind_produce in Hok.
      apply (IH (done0 ++ [Some p])); [|done].
      by intros [?|[=]%list_elem_of_singleton]%elem_of_app.
  - rewrite trace_bind_lift_Ok, bool_decide_false by done. done.
  - done.
Qed.

(** X14. A record is printed to the end exactly when it has an id and a
    name and each of its tree positions has a parent; its stanza is then
    the header, the first id, the first name, the synonym lines, one [is_a]
    line per distinct parent and a blank line. *)
Theorem write_entry_completes_iff parentList entry :
  ((write_entry parentList entry).2 = Ok tt ↔ printable parentList entry) ∧
  (printable parentList entry →
   write_entry parentList entry = (stanza_of parentList entry, Ok tt)).
Proof.
  split; [|apply write_entry_printable]. split.
  - unfold write_entry, printable. rewrite trace_bind_produce. cbn [snd].
    destruct (dd_get entry "UI") as [|ui uis]; [done|].
    cbn [list_at0]. rewrite trace_bind_lift_Ok, trace_bind_produce. cbn [snd].
    destruct (dd_get entry "MH") as [|mh mhs]; [done|].
    cbn [list_at0]. rewrite trace_bind_lift_Ok, trace_bind_produce. cbn [snd].
    rewrite trace_bind_yielded. cbn [snd].
    intros Hok. split; [done|]. split; [done|].
    apply (is_a_loop_Ok_resolved parentList _ []); [apply not_elem_of_nil|].
    destruct (is_a_loop parentList [] (dd_get entry "MN")) as [out [[]|x]]; done.
  - intros Hp. by rewrite (write_entry_printable _ _ Hp).
Qed.

(** X15. When every record can be printed, the whole output is the
    stanzas of the records one after the other, in the order of the
    records, and the loop runs to its end. *)
Theorem write_entries_printable parentList entries :
  Forall (printable parentList) entries →
  write_entries parentList entries =
    (concat (stanza_of parentList <$> entries), Ok tt).
Proof.
  intros Hall. apply write_entries_concat.
  apply Forall2_fmap_r, Forall_Forall2_diag.
  eapply Forall_impl; [exact Hall|]. apply write_entry_printable.
Qed.

Lemma write_entries_printable_witness :
  Forall (printable {["C06.198" := "D000099"]})
    [provideEntry "C" "Diseases"; record_example] ∧
  write_entries {["C06.198" := "D000099"]} [provideEntry "C" "Diseases"; record_example] =
    ([ "[Term]"; "id: C"; "name: Diseases"; EmptyString;
       "[Term]"; "id: D000123"; "name: Example Concept";
       "synonym: " +:+ String dquote ("Foo Bar" +:+ String dquote " EXACT []");
       "is_a: D000099"; EmptyString ], Ok tt).
Proof.
  assert (Hall : Forall (printable {["C06.198" := "D000099"]})
                   [provideEntry "C" "Diseases"; record_example]).
  { repeat constructor; try (by vm_compute). vm_compute. eauto. }
  split; [exact Hall|].
  rewrite (write_entries_printable _ _ Hall). by vm_compute.
Defined.

Lemma write_entry_completes_iff_witness :
  printable {["C06.198" := "D000099"]} record_example ∧
  write_entry {["C06.198" := "D000099"]} record_example =
    ([ "[Term]"; "id: D000123"; "name: Example Concept";
       "synonym: " +:+ String dquote ("Foo Bar" +:+ String dquote " EXACT []");
       "is_a: D000099"; EmptyString ], Ok tt).
Proof.
  assert (Hp : printable {["C06.198" := "D000099"]} record_example).
  { split; [by vm_compute|]. split; [by vm_compute|].
    repeat constructor. vm_compute. eauto. }
  split; [exact Hp|].
  exact (proj2 (write_entry_completes_iff {["C06.198" := "D000099"]} record_example) Hp).
Defined.

(** The lines of a stanza after its header are never the header. *)
Lemma write_entry_header parentList entry :
  ∃ rest, (write_entry parentList entry).1 = "[Term]" :: rest ∧
          Forall (fun line => line ≠ "[Term]") rest.
Proof.
  unfold write_entry. rewrite trace_bind_produce. cbn [fst].
  destruct (dd_get entry "UI") as [|ui uis].
  { exists []. split; [done|constructor]. }
  cbn [list_at0]. rewrite trace_bind_lift_Ok, trace_bind_produce. cbn [fst].
  destruct (dd_get entry "MH") as [|mh mhs].
  { exists ["id: " +:+ ui]. split; [done|]. by repeat constructor. }
  cbn [list_at0]. rewrite trace_bind_lift_Ok, trace_bind_produce, trace_bind_yielded.
  cbn [fst].
  destruct (is_a_loop_lines parentList (dd_get entry "MN") []) as (ps & Hout & _ & _).
  eexists. split; [reflexivity|].
  repeat (apply Forall_cons; split; [done|]).
  apply Forall_app. split.
  - apply Forall_fmap, Forall_true. by intros syn.
  - destruct (is_a_loop parentList [] (dd_get entry "MN")) as [out [[]|x]];
      cbn [fst] in Hout; subst out.
    + unfold mbind, trace_bind. cbn [fst snd]. apply Forall_app. split.
      * apply Forall_fmap, Forall_true. by intros p.
      * by repeat constructor.
    + unfold mbind, trace_bind. cbn [fst snd].
      apply Forall_fmap, Forall_true. by intros p.
Qed.

(** X16. As many stanzas as records: the output never holds more header
    lines than there are records, and holds exactly one per record when the
    loop runs to its end. *)
Theorem write_entries_one_header_per_record parentList entries :
  length (filter (fun line => line = "[Term]") (write_entries parentList entries).1)
    ≤ length entries ∧
  ((write_entries parentList entries).2 = Ok tt →
   length (filter (fun line => line = "[Term]") (write_entries parentList entries).1)
     = length entries).
Proof.
  induction entries as [|e entries [IHle IHeq]]; [done|].
  cbn [write_entries length].
  destruct (write_entry_header parentList e) as (rest & Hout & Hrest).
  assert (Hcount : filter (fun line => line = "[Term]") (write_entry parentList e).1
                   = ["[Term]"]).
  { rewrite Hout, filter_cons_True by done. f_equal.
    clear Hout. induction Hrest as [|line rest Hline _ IH]; [done|].
    by rewrite filter_cons_False. }
  destruct (write_entry parentList e) as [out [[]|x]]; cbn [fst] in Hcount.
  - unfold mbind, trace_bind. cbn [fst snd].
    rewrite filter_app, length_app, Hcount. cbn [length]. split; [lia|].
    intros Hok. by rewrite (IHeq Hok).
  - unfold mbind, trace_bind. cbn [fst snd]. rewrite Hcount. cbn [length].
    split; [lia|done].
Qed.

(** ** The regular expression on a synonym *)

Lemma sub_bar_from_no_bar s : ∀ inside, contains "|" (sub_bar_from inside s) = false.
Proof.
  induction s as [|a s IH]; intros inside; [done|]. cbn [sub_bar_from].
  destruct (Ascii.eqb a "010") eqn:Hlf.
  - apply Ascii.eqb_eq in Hlf as ->. cbn [contains]. apply IH.
  - destruct inside; [apply IH|].
    destruct (Ascii.eqb a "|") eqn:Hbar; [apply IH|].
    cbn [contains]. rewrite Hbar. apply IH.
Qed.

(** X17. The text of a synonym never holds a bar, whatever the value,
    and a value without a bar is kept as it is. *)
Theorem sub_bar_removes_every_bar value :
  contains "|" (sub_bar value) = false ∧
  (contains "|" value = false → sub_bar value = value).
Proof.
  split; [apply sub_bar_from_no_bar|]. unfold sub_bar.
  induction value as [|a value IH]; [done|]. cbn [contains sub_bar_from].
  destruct (Ascii.eqb a "|"); [done|]. intros Hno.
  rewrite (IH Hno). by destruct (Ascii.eqb a "010").
Qed.

(** ** The two passes over an input *)

Lemma readMeSH_unfold fin :
  readMeSH fin = (top_level_entries ++ (scan None fin).1, (scan None fin).2).
Proof. unfold readMeSH. by rewrite trace_bind_yielded. Qed.

Lemma top_level_no_trees : Forall (fun e => dd_get e "MN" = []) top_level_entries.
Proof. by repeat constructor. Qed.

Lemma write_entries_top_level parentList :
  write_entries parentList top_level_entries
    = (concat (top_stanza <$> topLevelTerms), Ok tt).
Proof.
  apply write_entries_concat. unfold top_level_entries.
  apply Forall2_fmap, Forall_Forall2_diag, Forall_true. intros [id name].
  cbn [fst snd]. rewrite (write_entry_printable parentList (provideEntry id name)).
  - unfold stanza_of, top_stanza.
    destruct (provideEntry_fields id name) as (-> & -> & -> & ->). done.
  - destruct (provideEntry_fields id name) as (Hui & Hmh & _ & Hmn).
    unfold printable. rewrite Hui, Hmh, Hmn. by repeat split.
Qed.

(** X18. An input with no line, or with blank lines only: the build
    gives the empty map, and the output is the stanzas of the synthetic
    records, each of four lines, and nothing else. *)
Theorem blank_input_gives_top_level_only fin :
  first_nonblank fin = None →
  build_parentList fin = Ok ∅ ∧
  ∀ parentList,
    write_obo parentList fin = (concat (top_stanza <$> topLevelTerms), Ok tt).
Proof.
  intros Hnone. pose proof (scan_None_first_nonblank fin) as Hscan.
  rewrite Hnone in Hscan. split.
  - unfold build_parentList. rewrite readMeSH_unfold, Hscan. cbn [fst snd].
    by rewrite app_nil_r, (build_from_no_trees _ ∅ top_level_no_trees).
  - intros parentList. unfold write_obo. rewrite readMeSH_unfold, Hscan. cbn [fst snd].
    by rewrite app_nil_r, write_entries_top_level.
Qed.

Lemma blank_input_gives_top_level_only_witness :
  first_nonblank [LF; "  " +:+ LF] = None ∧
  build_parentList [LF; "  " +:+ LF] = Ok ∅ ∧
  (write_obo ∅ [LF; "  " +:+ LF]).2 = Ok tt.
Proof.
  split; [reflexivity|].
  destruct (blank_input_gives_top_level_only [LF; "  " +:+ LF] eq_refl) as [Hb Hw].
  split; [exact Hb|]. by rewrite Hw.
Defined.

(** X19. An input in which a field line comes before any sentinel stops
    both passes with [TypeError]: no map is built, and the output holds the
    stanzas of the synthetic records and nothing of the input. *)
Theorem field_before_sentinel_stops_both_passes fin line :
  first_nonblank fin = Some line → line ≠ NEWRECORD →
  build_parentList fin = Raise TypeError ∧
  ∀ parentList,
    write_obo parentList fin = (concat (top_stanza <$> topLevelTerms), Raise TypeError).
Proof.
  intros Hline Hne. pose proof (scan_None_first_nonblank fin) as Hscan.
  rewrite Hline in Hscan. apply String.eqb_neq in Hne. rewrite Hne in Hscan. split.
  - unfold build_parentList. rewrite readMeSH_unfold, Hscan. cbn [fst snd].
    by rewrite app_nil_r, (build_from_no_trees _ ∅ top_level_no_trees).
  - intros parentList. unfold write_obo. rewrite readMeSH_unfold, Hscan. cbn [fst snd].
    by rewrite app_nil_r, write_entries_top_level.
Qed.

Lemma field_before_sentinel_stops_both_passes_witness :
  first_nonblank ["UI = D000001" +:+ LF; "*NEWRECORD" +:+ LF] = Some "UI = D000001" ∧
  build_parentList ["UI = D000001" +:+ LF; "*NEWRECORD" +:+ LF] = Raise TypeError ∧
  (write_obo ∅ ["UI = D000001" +:+ LF; "*NEWRECORD" +:+ LF]).2 = Raise TypeError.
Proof.
  split; [reflexivity|].
  destruct (field_before_sentinel_stops_both_passes
              ["UI = D000001" +:+ LF; "*NEWRECORD" +:+ LF] "UI = D000001" eq_refl)
    as [Hb Hw]; [discriminate|].
  split; [exact Hb|]. by rewrite Hw.
Defined.




(** ** A field line with an empty value *)

Lemma rstrip_append_blank s ws :
  rstrip ws = EmptyString → rstrip (s +:+ ws) = rstrip s.
Proof.
  intros Hws. induction s as [|a s IH]; [done|].
  change (rstrip (String a (s +:+ ws)) = rstrip (String a s)).
  cbn [rstrip]. by rewrite IH.
Qed.

Lemma rstrip_ends_nonspace s c :
  isspace c = false → rstrip (s +:+ String c EmptyString) = s +:+ String c EmptyString.
Proof.
  intros Hc. induction s as [|a s IH].
  - change (rstrip (String c EmptyString) = String c EmptyString).
    cbn [rstrip]. by rewrite Hc.
  - change (rstrip (String a (s +:+ String c EmptyString))
            = String a (s +:+ String c EmptyString)).
    cbn [rstrip]. rewrite IH. by destruct s.
Qed.

Lemma find_sep_no_space key :
  contains " " key = false → find_sep " = " (key +:+ " =") = None.
Proof.
  induction key as [|c key IH]; [done|].
  change (String c key +:+ " =") with (String c (key +:+ " =")).
  cbn [contains]. destruct (Ascii.eqb c " ") eqn:Hc; [done|]. intros Hkey.
  cbn [find_sep]. rewrite (IH Hkey).
  change (String.prefix " = " (String c (key +:+ " =")))
    with (if ascii_dec " " c then String.prefix "= " (key +:+ " =") else false).
  destruct (ascii_dec " " c) as [<-|]; [done|done].
Qed.

(** X21. A field line with nothing after the separator is not stored
    under its key: [strip] removes the blank that ends the separator, the
    separator is then not found, and the line is stored under the key
    followed by a blank and the equals sign, with the empty string as its
    value. *)
Theorem field_with_empty_value c key ws :
  isspace c = false → contains " " (String c key) = false →
  rstrip ws = EmptyString →
  field_of (String c key +:+ " = " +:+ ws) = (String c key +:+ " =", EmptyString).
Proof.
  intros Hc Hkey Hws. unfold field_of, strip.
  change (String c key +:+ " = " +:+ ws) with (String c (key +:+ " = " +:+ ws)).
  cbn [lstrip]. rewrite Hc.
  change (String c (key +:+ " = " +:+ ws))
    with (String c key +:+ (" =" +:+ (String " " ws))).
  rewrite <- (append_assoc_str (String c key) " =" (String " " ws)).
  rewrite rstrip_append_blank by (cbn [rstrip]; by rewrite Hws).
  assert (Hk : String c key +:+ " =" = (String c key +:+ " ") +:+ "=").
  { by rewrite append_assoc_str. }
  rewrite Hk, (rstrip_ends_nonspace (String c key +:+ " ") "=") by done.
  rewrite <- Hk.
  unfold partition. by rewrite (find_sep_no_space (String c key) Hkey).
Qed.

Lemma field_with_empty_value_witness :
  isspace "E" = false ∧ contains " " "ENTRY" = false ∧ rstrip LF = EmptyString ∧
  field_of ("ENTRY = " +:+ LF) = ("ENTRY =", EmptyString) ∧
  field_of ("ENTRY = x" +:+ LF) = ("ENTRY", "x").
Proof.
  split; [reflexivity|]. split; [reflexivity|]. split; [reflexivity|]. split.
  - exact (field_with_empty_value "E" "NTRY" LF eq_refl eq_refl eq_refl).
  - reflexivity.
Defined.

(** ** The end of the input, and the first tree position without a parent *)

(** X22. The last record is not lost: when the input ends after a
    sentinel line and at least one field line, the record they make is
    yielded last, holding under every key the values of the lines with that
    key, in the order of the lines. *)
Theorem last_record_is_yielded entry sentinel lines :
  is_sentinel sentinel = true →
  Forall (fun line => is_field line = true) lines →
  lines ≠ [] →
  ∃ e', scan entry (sentinel :: lines) = (yield_if entry ++ [e'], Ok tt) ∧
    ∀ key, dd_get e' key =
           (fun line => (field_of line).2) <$>
             filter (fun line => (field_of line).1 = key) lines.
Proof.
  intros Hs Hlines Hne. unfold is_sentinel in Hs.
  assert (Hnb : String.eqb (strip sentinel) EmptyString = false).
  { apply String.eqb_eq in Hs. by rewrite Hs. }
  pose proof (scan_fields_fold lines [] ∅ Hlines) as Hscan.
  rewrite app_nil_r in Hscan.
  pose proof (fun key => dd_get_fold_fields lines key ∅) as Hget.
  set (e' := foldl (fun e1 line => dd_append (field_of line).1 (field_of line).2 e1)
               ∅ lines) in *.
  exists e'. split.
  - cbn [scan]. rewrite Hnb, Hs, trace_bind_yielded, Hscan. cbn [scan fst snd].
    f_equal. f_equal. unfold yield_if, truthy.
    destruct (decide (e' = ∅)) as [Hempty|Hne']; [|by rewrite bool_decide_false].
    destruct lines as [|line lines]; [done|].
    specialize (Hget (field_of line).1). rewrite Hempty in Hget.
    rewrite filter_cons_True in Hget by done. done.
  - intros key. by rewrite Hget.
Qed.

Lemma last_record_is_yielded_witness :
  is_sentinel ("*NEWRECORD" +:+ LF) = true ∧
  Forall (fun line => is_field line = true) ["UI = D000001" +:+ LF; "MN = C06" +:+ LF] ∧
  ∃ e', scan None [ "*NEWRECORD" +:+ LF; "UI = D000001" +:+ LF; "MN = C06" +:+ LF ]
          = ([e'], Ok tt) ∧
        dd_get e' "UI" = ["D000001"] ∧ dd_get e' "MN" = ["C06"].
Proof.
  assert (Hlines : Forall (fun line => is_field line = true)
                     ["UI = D000001" +:+ LF; "MN = C06" +:+ LF]).
  { by repeat constructor. }
  split; [reflexivity|]. split; [exact Hlines|].
  destruct (last_record_is_yielded None ("*NEWRECORD" +:+ LF)
              ["UI = D000001" +:+ LF; "MN = C06" +:+ LF] eq_refl Hlines)
    as (e' & Hscan & Hget); [discriminate|].
  exists e'. split; [exact Hscan|]. split; rewrite Hget; by vm_compute.
Defined.

Lemma is_a_loop_until parentList trees parents rest x :
  Forall2 (fun t p => getParent parentList t = Ok (Some p)) trees parents →
  (∀ done1 : list (option string),
     None ∉ done1 → is_a_loop parentList done1 rest = ([], Raise x)) →
  ∀ done0 : list (option string), None ∉ done0 →
  is_a_loop parentList done0 (trees ++ rest) =
    ((fun p => "is_a: " +:+ p) <$>
       filter (fun p => Some p ∉ done0) (first_seen parents), Raise x).
Proof.
  intros Hres Hrest.
  induction Hres as [|t p trees parents Hp _ IH]; intros done0 Hnone.
  - cbn [app first_seen]. by rewrite Hrest.
  - cbn [app is_a_loop first_seen]. rewrite Hp, trace_bind_lift_Ok.
    destruct (decide (Some p ∈ done0)) as [Hin|Hnotin].
    + rewrite bool_decide_true, IH by done.
      rewrite filter_cons_False by (by intros ?).
      rewrite list_filter_filter. do 2 f_equal.
      apply list_filter_iff. intros q. split; [|tauto].
      intros Hq. split; [done|]. by intros ->.
    + rewrite bool_decide_false by done. cbn [str_add].
      rewrite trace_bind_lift_Ok, trace_bind_produce, IH.
      * rewrite filter_cons_True by done. cbn [fmap list_fmap fst snd]. do 3 f_equal.
        rewrite list_filter_filter. apply list_filter_iff. intros q.
        rewrite not_elem_of_app, list_elem_of_singleton.
        split; [intros [? ?]|intros [? ?]]; (split; [done|congruence]).
      * by intros [?|[=]%list_elem_of_singleton]%elem_of_app.
Qed.

(** X23. The [is_a] loop stops at the first tree position without a
    parent: the lines of the distinct parents of the positions before it
    are printed, in first-seen order, and then [TypeError] is raised when
    [getParent] returns none for it and the exception of [getParent] when
    it raises; the positions after it are not looked at. *)
Theorem is_a_loop_stops_at_first_unresolved parentList trees parents tree later :
  Forall2 (fun t p => getParent parentList t = Ok (Some p)) trees parents →
  (getParent parentList tree = Ok None →
   is_a_loop parentList [] (trees ++ tree :: later) =
     ((fun p => "is_a: " +:+ p) <$> first_seen parents, Raise TypeError)) ∧
  (∀ x, getParent parentList tree = Raise x →
   is_a_loop parentList [] (trees ++ tree :: later) =
     ((fun p => "is_a: " +:+ p) <$> first_seen parents, Raise x)).
Proof.
  intros Hres. split.
  - intros Hnone.
    rewrite (is_a_loop_until parentList trees parents (tree :: later) TypeError Hres).
    + by rewrite filter_none_done.
    + intros done1 Hd. cbn [is_a_loop]. rewrite Hnone, trace_bind_lift_Ok.
      by rewrite bool_decide_false.
    + apply not_elem_of_nil.
  - intros x Hx.
    rewrite (is_a_loop_until parentList trees parents (tree :: later) x Hres).
    + by rewrite filter_none_done.
    + intros done1 Hd. cbn [is_a_loop]. by rewrite Hx.
    + apply not_elem_of_nil.
Qed.

Lemma is_a_loop_stops_at_first_unresolved_witness :
  Forall2 (fun t p => getParent ∅ t = Ok (Some p)) ["C06"; "C07"] ["C"; "C"] ∧
  getParent ∅ "AB" = Ok None ∧
  is_a_loop ∅ [] (["C06"; "C07"] ++ "AB" :: ["D01"]) = (["is_a: C"], Raise TypeError) ∧
  getParent ∅ "X99.001" = Raise (KeyError "X99") ∧
  is_a_loop ∅ [] (["C06"; "C07"] ++ "X99.001" :: ["D01"])
    = (["is_a: C"], Raise (KeyError "X99")).
Proof.
  assert (Hres : Forall2 (fun t p => getParent ∅ t = Ok (Some p))
                   ["C06"; "C07"] ["C"; "C"]).
  { by repeat constructor. }
  split; [exact Hres|]. split; [reflexivity|]. split.
  - exact (proj1 (is_a_loop_stops_at_first_unresolved ∅ _ _ "AB" ["D01"] Hres) eq_refl).
  - split; [reflexivity|].
    exact (proj2 (is_a_loop_stops_at_first_unresolved ∅ _ _ "X99.001" ["D01"] Hres)
             (KeyError "X99") eq_refl).
Defined.

Lemma sub_bar_removes_every_bar_witness :
  contains "|" (sub_bar "Foo Bar|T123|x") = false ∧
  contains "|" "Foo Bar" = false ∧
  sub_bar "Foo Bar" = "Foo Bar".
Proof.
  split; [exact (proj1 (sub_bar_removes_every_bar "Foo Bar|T123|x"))|].
  split; [reflexivity|].
  exact (proj2 (sub_bar_removes_every_bar "Foo Bar") eq_refl).
Defined.
